(** * Coverage aggregation core of the MTN coverage checker

    A shallow embedding of [src/utils/mtnApi.ts] (class [MTNApi]) and
    [src/utils/apiClient.ts] (class [ApiClient]), together with the
    properties of the coverage lookup that the specification states.

    Modelling conventions.
    - A JavaScript [number] is a rational ([Q]) or one of the three special
      values.  Comparisons against the constants of the code are exact on
      IEEE doubles, so they are modelled exactly; sums and quotients are
      taken in exact arithmetic.
    - Parsed JSON is an inductive type; a property read yields [option json],
      with [None] standing for [undefined].
    - Code that can throw lives in [outcome]; code that also touches the
      lookup cache, the clock or the network lives in the monad [M], which
      threads a [world] and records every cache and network call in a trace.
    - The network, the clock and the number formatting built-ins of the
      engine are components of a [host] record: every theorem quantifies
      over them. *)

From Stdlib Require Import ZArith QArith Qabs Qround String Ascii DecimalString List Bool.
From Stdlib Require Import Reals Psatz.
From stdpp Require Import gmap strings list fin_maps.

Close Scope R_scope.

Open Scope string_scope.

(** ** JavaScript values *)

Module JS.

Inductive number := Fin (q : Q) | PosInf | NegInf | NaN.

Definition int (z : Z) : number := Fin (inject_Z z).

(** Relational comparison: [None] when an operand is [NaN]. *)
Definition num_compare (a b : number) : option comparison :=
  match a, b with
  | NaN, _ => None
  | _, NaN => None
  | Fin p, Fin q => Some (p ?= q)%Q
  | Fin _, PosInf => Some Lt
  | Fin _, NegInf => Some Gt
  | PosInf, PosInf => Some Eq
  | PosInf, _ => Some Gt
  | NegInf, NegInf => Some Eq
  | NegInf, _ => Some Lt
  end.

Definition num_ge (a b : number) : bool :=
  match num_compare a b with Some Gt | Some Eq => true | _ => false end.
Definition num_le (a b : number) : bool :=
  match num_compare a b with Some Lt | Some Eq => true | _ => false end.
Definition num_gt (a b : number) : bool :=
  match num_compare a b with Some Gt => true | _ => false end.
Definition num_lt (a b : number) : bool :=
  match num_compare a b with Some Lt => true | _ => false end.

(** [a + b] *)
Definition num_add (a b : number) : number :=
  match a, b with
  | NaN, _ | _, NaN => NaN
  | Fin p, Fin q => Fin (p + q)
  | PosInf, NegInf | NegInf, PosInf => NaN
  | PosInf, _ | _, PosInf => PosInf
  | NegInf, _ | _, NegInf => NegInf
  end.

(** [a / n] for a counter [n] *)
Definition num_div_count (a : number) (n : nat) : number :=
  match a, n with
  | NaN, _ => NaN
  | Fin p, O =>
      match (p ?= 0)%Q with Gt => PosInf | Lt => NegInf | Eq => NaN end
  | Fin p, S _ => Fin (p / inject_Z (Z.of_nat n))
  | PosInf, _ => PosInf
  | NegInf, _ => NegInf
  end.

(** [Math.round]: the nearest integer, halves towards plus infinity. *)
Definition Math_round (a : number) : number :=
  match a with
  | Fin p => int (Qfloor (p + (1 # 2)))
  | _ => a
  end.

Definition Math_max (a b : number) : number :=
  match num_compare a b with
  | None => NaN
  | Some Lt => b
  | Some _ => a
  end.

Definition Math_min (a b : number) : number :=
  match num_compare a b with
  | None => NaN
  | Some Gt => b
  | Some _ => a
  end.

(** Parsed JSON. *)
#[warnings="-register-all"]
Inductive json :=
| JNull
| JBool (b : bool)
| JNum (n : number)
| JStr (s : string)
| JArr (items : list json)
| JObj (members : list (string * json)).

(** A JavaScript value obtained from JSON data: [None] is [undefined]. *)
Definition value := option json.

Fixpoint assoc (members : list (string * json)) (p : string) : value :=
  match members with
  | [] => None
  | (k, v) :: rest => if String.eqb k p then Some v else assoc rest p
  end.

Definition is_zero_or_nan (n : number) : bool :=
  match n with
  | Fin q => Qeq_bool q 0
  | NaN => true
  | _ => false
  end.

(** ToBoolean *)
Definition truthy (v : value) : bool :=
  match v with
  | None | Some JNull => false
  | Some (JBool b) => b
  | Some (JNum n) => negb (is_zero_or_nan n)
  | Some (JStr s) => negb (String.eqb s "")
  | Some (JArr _) | Some (JObj _) => true
  end.

(** What a script can throw: an [Error] instance with its message, or
    any other value. *)
Inductive thrown := ErrorObj (message : string) | OtherThrown.

Inductive outcome (A : Type) := Ok (a : A) | Throw (e : thrown).
Arguments Ok {A} a.
Arguments Throw {A} e.

Definition obind {A B} (c : outcome A) (k : A -> outcome B) : outcome B :=
  match c with
  | Ok a => k a
  | Throw e => Throw e
  end.

(** [j[p]] for a value [j] that is neither [null] nor [undefined]: the
    members of an object, and the [length] of an array or a string. *)
Definition member (j : json) (p : string) : value :=
  match j with
  | JObj members => assoc members p
  | JArr items =>
      if String.eqb p "length" then Some (JNum (int (Z.of_nat (List.length items))))
      else None
  | JStr s =>
      if String.eqb p "length" then Some (JNum (int (Z.of_nat (String.length s))))
      else None
  | _ => None
  end.

(** [v.p]: reading a property of [null] or [undefined] is a TypeError. *)
Definition get_prop (v : value) (p : string) : outcome value :=
  match v with
  | None | Some JNull => Throw (ErrorObj "Cannot read properties of null or undefined")
  | Some j => Ok (member j p)
  end.

(** [Array.prototype.forEach] with a callback that may throw. *)
Fixpoint forEach {A S} (f : S -> A -> outcome S) (l : list A) (s : S) : outcome S :=
  match l with
  | [] => Ok s
  | x :: rest => obind (f s x) (forEach f rest)
  end.

End JS.

Export JS.

Notation "x <-? c ;; k" := (obind c (fun x => k))
  (at level 100, c at next level, right associativity).

(** ** Technologies and the strength analysis *)

Inductive TechnologyType :=
| ALL | T2G | T3G | T4G | T5G
| UNCAPPED_WIRELESS | FIBRE | LICENSED_WIRELESS | FIXED_LTE.

Definition tech_name (t : TechnologyType) : string :=
  match t with
  | ALL => "ALL" | T2G => "2G" | T3G => "3G" | T4G => "4G" | T5G => "5G"
  | UNCAPPED_WIRELESS => "UNCAPPED_WIRELESS" | FIBRE => "FIBRE"
  | LICENSED_WIRELESS => "LICENSED_WIRELESS" | FIXED_LTE => "FIXED_LTE"
  end.

Inductive Strength := low | medium | high.

Record Analysis := { strength : Strength; quality : number }.

Definition signalProps : list string :=
  ["signal"; "strength"; "quality"; "level"; "power"; "rssi"].

(** The table [techQuality] of [analyzeCoverageFeatures]; it has no row
    for ['ALL'] and ['LICENSED_WIRELESS']. *)
Definition techQuality (t : TechnologyType) : option Z :=
  match t with
  | T2G => Some 60%Z
  | T3G => Some 70%Z
  | T4G => Some 85%Z
  | T5G => Some 95%Z
  | UNCAPPED_WIRELESS => Some 80%Z
  | FIBRE => Some 98%Z
  | FIXED_LTE => Some 75%Z
  | ALL | LICENSED_WIRELESS => None
  end.

(** [techQuality[techType] || 70] *)
Definition defaultQuality (t : TechnologyType) : number :=
  int (default 70%Z (techQuality t)).

(** The [for (const prop of signalProps)] loop on one [props] value. *)
Definition scanProps (props : json) (acc : number * nat) : number * nat :=
  fold_left
    (fun '(totalQuality, qualityCount) prop =>
       match member props prop with
       | Some (JNum v) =>
           if num_gt v (int 0) then (num_add totalQuality v, S qualityCount)
           else (totalQuality, qualityCount)
       | _ => (totalQuality, qualityCount)
       end)
    signalProps acc.

(** The callback of [features.forEach]. *)
Definition scanFeature (acc : number * nat) (feature : json) : outcome (number * nat) :=
  props <-? get_prop (Some feature) "properties" ;;
  match props with
  | Some p => if truthy props then Ok (scanProps p acc) else Ok acc
  | None => Ok acc
  end.

(** The tier chosen at the end of [analyzeCoverageFeatures], from the
    quality before clamping and the number of features. *)
Definition strengthOf (quality : number) (count : nat) : Strength :=
  if num_ge quality (int 85) && (3 <=? count)%nat then high
  else if num_ge quality (int 65) || (2 <=? count)%nat then medium
  else low.

(** [features.length === 0] *)
Definition length_is_zero (features : json) : bool :=
  match member features "length" with
  | Some (JNum (Fin q)) => Qeq_bool q 0
  | _ => false
  end.

Definition analyzeCoverageFeatures (features : value) (techType : TechnologyType)
  : outcome Analysis :=
  match features with
  | Some fs =>
      if negb (truthy features) || length_is_zero fs
      then Ok {| strength := low; quality := int 0 |}
      else
        match fs with
        | JArr items =>
            acc <-? forEach scanFeature items (int 0, O) ;;
            let '(totalQuality, qualityCount) := acc in
            let quality :=
              if (0 <? qualityCount)%nat
              then Math_round (num_div_count totalQuality qualityCount)
              else defaultQuality techType in
            Ok {| strength := strengthOf quality (List.length items);
                  quality := Math_min (int 100) (Math_max (int 0) quality) |}
        | _ => Throw (ErrorObj "features.forEach is not a function")
        end
  | None => Ok {| strength := low; quality := int 0 |}
  end.

Definition getTechnologyDescription (t : TechnologyType) : string :=
  match t with
  | T2G => "Legacy Network"
  | T3G => "Enhanced Network"
  | T4G => "LTE Network"
  | T5G => "5G Network"
  | UNCAPPED_WIRELESS => "Fixed Wireless Access"
  | FIBRE => "Fibre Network"
  | FIXED_LTE => "Fixed LTE Access"
  | ALL | LICENSED_WIRELESS => "Network Coverage"
  end.

(** ** Results, requests and the world *)

Record LayerConfig := {
  mlid : string;
  geoserverLayer : string;
  style : string;
  opacity : Q
}.

(** The object returned by [checkTechnologyCoverage] when it finds coverage. *)
Record Observation := {
  obs_type : TechnologyType;
  obs_available : bool;
  obs_strength : Strength;
  obs_quality : number;
  infrastructureType : string;
  obs_features : value;
  layerInfo : LayerConfig
}.

(** An entry of the [errors] array of [getRealMTNCoverage]. *)
Record TechError := { tech : TechnologyType; tech_error : string }.

(** The values stored under the keys of [CoverageData]. *)
Inductive SourceEntry :=
| MtnGeoServer (available : bool) (types : list Observation) (source : string)
    (coordinates : number * number) (address : option string)
    (errors : option (list TechError))
| PublicQuery (available : bool) (data : json) (source : string)
| CoveragePoint (available : bool) (types : json) (source : string)
| WmsFeatures (available : bool) (features : value) (source : string)
| ConsumerApi (available : bool) (services : json) (source : string).

Definition observations (e : SourceEntry) : list Observation :=
  match e with
  | MtnGeoServer _ types _ _ _ _ => types
  | _ => []
  end.

Definition source_errors (e : SourceEntry) : list TechError :=
  match e with
  | MtnGeoServer _ _ _ _ _ (Some errs) => errs
  | _ => []
  end.

Record ErrorInfo := { endpoint : nat + string; error : string }.

Record CoverageResult := {
  coordinates : number * number;
  address : string;
  province : string;
  timestamp : Z;
  coverage : gmap string SourceEntry;
  errors : list ErrorInfo;
  success : bool
}.

Record CacheEntry := { data : CoverageResult; created : Z }.

(** A request is identified by the endpoint and the values its URL or body
    is computed from (for the WMS query, the bounding box is a function of
    the coordinates). *)
Inductive request :=
| ReqGeoServerFeatureInfo (lat lng : number) (layer : LayerConfig)
| ReqPublicCoverage (lat lng : number)
| ReqCoverageApiPoint (lat lng : number)
| ReqWMSFeatureInfo (lat lng : number)
| ReqConsumerApi (lat lng : number)
| ReqProxyCoverage (lat lng : number) (technology : string).

(** What [fetch] can do: reject, or resolve to a response whose
    [json()] in turn rejects or yields parsed data. *)
Record Response := {
  status : Z;
  statusText : string;
  body : outcome json
}.

Inductive fetch_outcome :=
| FetchRejects (e : thrown)
| FetchResolves (r : Response).

Definition ok (r : Response) : bool := (200 <=? status r)%Z && (status r <=? 299)%Z.

Inductive event :=
| EvFetch (r : request)
| EvCacheGet (key : string)
| EvCacheSet (key : string)
| EvCacheDelete (key : string).

Record world := {
  cache : gmap string CacheEntry;
  tick : nat;
  trace : list event
}.

(** The environment of the script.  [net] and [clock] are indexed by the
    number of earlier interactions, so that they may answer differently
    each time. *)
Record host := {
  net : nat -> request -> fetch_outcome;
  clock : nat -> Z;
  numberToString : number -> string;
  toFixed : number -> nat -> string;
  toNumber : json -> number;
  toString : json -> string;
  toLowerCase : string -> string;
  trim : string -> string
}.

Definition M (A : Type) : Type := world -> outcome A * world.

Definition ret {A} (a : A) : M A := fun w => (Ok a, w).

Definition bind {A B} (c : M A) (k : A -> M B) : M B :=
  fun w => match c w with
           | (Ok a, w') => k a w'
           | (Throw e, w') => (Throw e, w')
           end.

Definition throw {A} (e : thrown) : M A := fun w => (Throw e, w).

Definition lift {A} (o : outcome A) : M A := fun w => (o, w).

(** [try { body } catch (e) { handler e }] *)
Definition try_catch {A} (body : M A) (handler : thrown -> M A) : M A :=
  fun w => match body w with
           | (Ok a, w') => (Ok a, w')
           | (Throw e, w') => handler e w'
           end.

Notation "x <- c ;; k" := (bind c (fun x => k))
  (at level 100, c at next level, right associativity).
Notation "c ;;; k" := (bind c (fun _ => k))
  (at level 100, right associativity).

Definition emit (e : event) : M unit :=
  fun w => (Ok tt, {| cache := cache w; tick := tick w; trace := (trace w ++ [e])%list |}).

Definition next_tick (w : world) : world :=
  {| cache := cache w; tick := S (tick w); trace := trace w |}.

(** The outcome of one settled promise of [Promise.allSettled]. *)
Inductive settled (A : Type) := Fulfilled (v : A) | Rejected (reason : thrown).
Arguments Fulfilled {A} v.
Arguments Rejected {A} reason.

Definition settle {A} (c : M A) : M (settled A) :=
  fun w => match c w with
           | (Ok a, w') => (Ok (Fulfilled a), w')
           | (Throw e, w') => (Ok (Rejected e), w')
           end.

(** A [for ... of] loop whose body may have effects. *)
Fixpoint forEachM {A S} (f : S -> A -> M S) (l : list A) (s : S) : M S :=
  match l with
  | [] => ret s
  | x :: rest => s' <- f s x ;; forEachM f rest s'
  end.

(** [error instanceof Error ? error.message : fallback] *)
Definition message_or (fallback : string) (e : thrown) : string :=
  match e with
  | ErrorObj m => m
  | OtherThrown => fallback
  end.

(** [a || b] on strings *)
Definition str_or (a b : string) : string := if String.eqb a "" then b else a.

Section Host.

Variable h : host.

(** [Date.now()] and [new Date()] *)
Definition now : M Z :=
  fun w => (Ok (clock h (tick w)), next_tick w).

(** [await fetch(...)] *)
Definition fetch (r : request) : M Response :=
  fun w =>
    let w' := {| cache := cache w; tick := S (tick w); trace := (trace w ++ [EvFetch r])%list |} in
    match net h (tick w) r with
    | FetchRejects e => (Throw e, w')
    | FetchResolves resp => (Ok resp, w')
    end.

(** [await response.json()] *)
Definition response_json (r : Response) : M json := lift (body r).

(** [v > 0] for an arbitrary value [v] *)
Definition gt_zero (v : value) : bool :=
  match v with
  | None => false
  | Some JNull => false
  | Some (JBool b) => b
  | Some (JNum n) => num_gt n (int 0)
  | Some j => num_gt (toNumber h j) (int 0)
  end.

End Host.

(** ** [MTNApi] *)

Module MTNApi.

(** [technologyLayers], in the order of its keys. *)
Definition technologyLayers : list (TechnologyType * LayerConfig) :=
  [ (ALL, {| mlid := "EBU-RBUS-ALL"; geoserverLayer := "mtnsi:MTN-EBU-RBUS-ALL2";
             style := "MTN-EBU-RBUS-ALL"; opacity := 7 # 10 |});
    (T2G, {| mlid := "EBU-RBUS-ALL"; geoserverLayer := "mtnsi:MTNSA-Coverage-2G";
             style := "MTN-Coverage-2G"; opacity := 7 # 10 |});
    (T3G, {| mlid := "EBU-RBUS-ALL"; geoserverLayer := "mtnsi:MTNSA-Coverage-3G";
             style := "MTN-Coverage-3G"; opacity := 7 # 10 |});
    (T4G, {| mlid := "EBU-RBUS-ALL"; geoserverLayer := "mtnsi:MTNSA-Coverage-4G";
             style := "MTN-Coverage-4G"; opacity := 7 # 10 |});
    (T5G, {| mlid := "EBU-RBUS-ALL"; geoserverLayer := "mtnsi:MTNSA-Coverage-5G";
             style := "MTN-Coverage-5G"; opacity := 7 # 10 |});
    (UNCAPPED_WIRELESS,
          {| mlid := "UncappedWirelessEBU"; geoserverLayer := "mtnsi:MTNSA-Coverage-Tarana";
             style := "MTN-Coverage-UWA-EBU"; opacity := 7 # 10 |});
    (FIBRE, {| mlid := "FTTBCoverage"; geoserverLayer := "mtnsi:MTN-FTTB-Feasible";
             style := "MTN-FTTB-Feasible-G"; opacity := 7 # 10 |});
    (LICENSED_WIRELESS,
          {| mlid := "PMPCoverage"; geoserverLayer := "mtnsi:MTN-PMP-Feasible-Integrated";
             style := "MTN-PMP-Feasible-B"; opacity := 7 # 10 |});
    (FIXED_LTE,
          {| mlid := "FLTECoverageEBU"; geoserverLayer := "mtnsi:MTNSA-Coverage-FIXLTE-EBU-0";
             style := "MTN-Coverage-FIXLTE-EBU-R"; opacity := 7 # 10 |}) ].

Record Bounds := { north : number; south : number; east : number; west : number }.

Definition saBounds : Bounds :=
  {| north := int (-22); south := int (-35); east := int 33; west := int 16 |}.

(** 5 minutes, in milliseconds *)
Definition cacheTimeout : Z := 300000.

Definition isInSouthAfrica (lat lng : number) : bool :=
  num_ge lat (south saBounds) && num_le lat (north saBounds) &&
  num_ge lng (west saBounds) && num_le lng (east saBounds).

(** The table of [getProvince]: name, latitude range, longitude range. *)
Definition provinces : list (string * (number * number) * (number * number)) :=
  [ ("Gauteng",       (Fin (-265 # 10), Fin (-250 # 10)), (Fin (275 # 10), Fin (290 # 10)));
    ("Western Cape",  (Fin (-345 # 10), Fin (-310 # 10)), (Fin (175 # 10), Fin (210 # 10)));
    ("KwaZulu-Natal", (Fin (-315 # 10), Fin (-270 # 10)), (Fin (285 # 10), Fin (330 # 10)));
    ("Eastern Cape",  (Fin (-335 # 10), Fin (-300 # 10)), (Fin (220 # 10), Fin (285 # 10)));
    ("Limpopo",       (Fin (-255 # 10), Fin (-220 # 10)), (Fin (265 # 10), Fin (315 # 10)));
    ("Mpumalanga",    (Fin (-265 # 10), Fin (-240 # 10)), (Fin (285 # 10), Fin (320 # 10)));
    ("North West",    (Fin (-275 # 10), Fin (-240 # 10)), (Fin (220 # 10), Fin (285 # 10)));
    ("Free State",    (Fin (-300 # 10), Fin (-265 # 10)), (Fin (240 # 10), Fin (295 # 10)));
    ("Northern Cape", (Fin (-320 # 10), Fin (-260 # 10)), (Fin (160 # 10), Fin (260 # 10))) ].

Fixpoint firstProvince (table : list (string * (number * number) * (number * number)))
  (lat lng : number) : string :=
  match table with
  | [] => "Unknown"
  | (name, (lat0, lat1), (lng0, lng1)) :: rest =>
      if num_ge lat lat0 && num_le lat lat1 && num_ge lng lng0 && num_le lng lng1
      then name
      else firstProvince rest lat lng
  end.

Definition getProvince (lat lng : number) : string := firstProvince provinces lat lng.

Section Host.

Variable h : host.

Definition addToCache (key : string) (d : CoverageResult) : M unit :=
  t <- now h ;;
  emit (EvCacheSet key) ;;;
  fun w => (Ok tt, {| cache := <[key := {| data := d; created := t |}]> (cache w);
                      tick := tick w; trace := trace w |}).

Definition cacheDelete (key : string) : M unit :=
  emit (EvCacheDelete key) ;;;
  fun w => (Ok tt, {| cache := delete key (cache w); tick := tick w; trace := trace w |}).

Definition cacheGet (key : string) : M (option CacheEntry) :=
  emit (EvCacheGet key) ;;;
  fun w => (Ok (cache w !! key), w).

Definition getFromCache (key : string) : M (option CoverageResult) :=
  cached <- cacheGet key ;;
  match cached with
  | Some entry =>
      t <- now h ;;
      if (t - created entry <? cacheTimeout)%Z then ret (Some (data entry))
      else cacheDelete key ;;; ret None
  | None => cacheDelete key ;;; ret None
  end.

Definition checkTechnologyCoverage (lat lng : number) (techType : TechnologyType)
  (layerConfig : LayerConfig) : M (option Observation) :=
  try_catch
    (response <- fetch h (ReqGeoServerFeatureInfo lat lng layerConfig) ;;
     if ok response then
       data <- response_json response ;;
       features <- lift (get_prop (Some data) "features") ;;
       len <- lift (if truthy features then get_prop features "length" else Ok None) ;;
       if truthy features && gt_zero h len then
         coverageAnalysis <- lift (analyzeCoverageFeatures features techType) ;;
         ret (Some {| obs_type := techType;
                      obs_available := true;
                      obs_strength := strength coverageAnalysis;
                      obs_quality := quality coverageAnalysis;
                      infrastructureType := getTechnologyDescription techType;
                      obs_features := features;
                      layerInfo := layerConfig |})
       else ret None
     else ret None)
    (fun _ => ret None).

(** The body of the loop over [technologyLayers]. *)
Definition probeLayer (lat lng : number)
  (acc : list Observation * list TechError) (entry : TechnologyType * LayerConfig)
  : M (list Observation * list TechError) :=
  let '(availableTechnologies, errs) := acc in
  let '(techType, layerConfig) := entry in
  try_catch
    (cov <- checkTechnologyCoverage lat lng techType layerConfig ;;
     match cov with
     | Some c => ret ((availableTechnologies ++ [c])%list, errs)
     | None => ret (availableTechnologies, errs)
     end)
    (fun e => ret (availableTechnologies,
                   (errs ++ [{| tech := techType;
                               tech_error := message_or "Unknown error" e |}])%list)).

Definition getRealMTNCoverage (lat lng : number) (addr : option string)
  : M (option (gmap string SourceEntry)) :=
  try_catch
    (acc <- forEachM (probeLayer lat lng) technologyLayers ([], []) ;;
     let '(availableTechnologies, errs) := acc in
     match availableTechnologies with
     | [] => ret None
     | _ =>
         ret (Some {[ "mtnGeoServer" :=
                        MtnGeoServer true availableTechnologies "MTN GeoServer WMS"
                          (lat, lng) addr
                          (match errs with [] => None | _ => Some errs end) ]})
     end)
    (fun _ => ret None).

Definition tryPublicCoverageQuery (lat lng : number) : M (option (gmap string SourceEntry)) :=
  try_catch
    (response <- fetch h (ReqPublicCoverage lat lng) ;;
     if ok response then
       d <- response_json response ;;
       ret (Some {[ "publicQuery" := PublicQuery true d "MTN Public Coverage Query" ]})
     else ret None)
    (fun _ => ret None).

Definition tryCoverageApiPoint (lat lng : number) : M (option (gmap string SourceEntry)) :=
  try_catch
    (response <- fetch h (ReqCoverageApiPoint lat lng) ;;
     if ok response then
       d <- response_json response ;;
       ret (Some {[ "coveragePoint" := CoveragePoint true d "MTN Coverage API Point" ]})
     else ret None)
    (fun _ => ret None).

Definition tryWMSFeatureInfo (lat lng : number) : M (option (gmap string SourceEntry)) :=
  try_catch
    (response <- fetch h (ReqWMSFeatureInfo lat lng) ;;
     if ok response then
       d <- response_json response ;;
       features <- lift (get_prop (Some d) "features") ;;
       ret (Some {[ "wmsFeatures" :=
                      WmsFeatures true (if truthy features then features else Some (JArr []))
                        "MTN WMS Service" ]})
     else ret None)
    (fun _ => ret None).

Definition tryAlternativeEndpoint (lat lng : number) : M (option (gmap string SourceEntry)) :=
  try_catch
    (response <- fetch h (ReqConsumerApi lat lng) ;;
     if ok response then
       d <- response_json response ;;
       ret (Some {[ "consumerApi" := ConsumerApi true d "MTN Consumer API" ]})
     else ret None)
    (fun _ => ret None).

(** The callback of [responses.forEach] in [checkCoverage]: it updates the
    [coverage] and [errors] of [results]. *)
Definition processResponse
  (acc : gmap string SourceEntry * list ErrorInfo)
  (indexed : nat * settled (option (gmap string SourceEntry)))
  : gmap string SourceEntry * list ErrorInfo :=
  let '(cov, errs) := acc in
  let '(index, response) := indexed in
  match response with
  | Fulfilled (Some v) => (v ∪ cov, errs)
  | Fulfilled None => (cov, errs)
  | Rejected reason =>
      (cov, (errs ++ [{| endpoint := inl index;
                         error := str_or (message_or "" reason) "Unknown error" |}])%list)
  end.

(** [address || `${latitude}, ${longitude}`] *)
Definition addressOrCoordinates (latitude longitude : number) (addr : option string) : string :=
  str_or (default "" addr)
         (numberToString h latitude ++ ", " ++ numberToString h longitude).

(** The cache key: both coordinates with four decimals. *)
Definition cacheKey (latitude longitude : number) : string :=
  toFixed h latitude 4 ++ "," ++ toFixed h longitude 4.

(** [checkCoverage].  In the fallback tier the four promises are started in
    order and each awaits one [fetch]; no statement of the [try] block that
    follows can throw ([Promise.allSettled] never rejects), so its [catch]
    clause, which would push a ['general'] error, is not represented. *)
Definition checkCoverage (latitude longitude : number) (addr : option string)
  : M CoverageResult :=
  if negb (isInSouthAfrica latitude longitude) then
    t <- now h ;;
    ret {| success := false;
           coordinates := (latitude, longitude);
           address := addressOrCoordinates latitude longitude addr;
           province := "Unknown";
           timestamp := t;
           coverage := ∅;
           errors := [{| endpoint := inr "validation";
                         error := "Coordinates are outside South Africa" |}] |}
  else
    let key := cacheKey latitude longitude in
    cached <- getFromCache key ;;
    match cached with
    | Some r => ret r
    | None =>
        t <- now h ;;
        let province0 := getProvince latitude longitude in
        let address0 := addressOrCoordinates latitude longitude addr in
        realCoverage <- getRealMTNCoverage latitude longitude addr ;;
        match realCoverage with
        | Some rc =>
            let results :=
              {| coordinates := (latitude, longitude); address := address0;
                 province := province0; timestamp := t;
                 coverage := rc; errors := []; success := true |} in
            addToCache key results ;;;
            ret results
        | None =>
            r0 <- settle (tryPublicCoverageQuery latitude longitude) ;;
            r1 <- settle (tryCoverageApiPoint latitude longitude) ;;
            r2 <- settle (tryWMSFeatureInfo latitude longitude) ;;
            r3 <- settle (tryAlternativeEndpoint latitude longitude) ;;
            let '(cov, errs) :=
              fold_left processResponse
                [(0%nat, r0); (1%nat, r1); (2%nat, r2); (3%nat, r3)] (∅, []) in
            let results :=
              {| coordinates := (latitude, longitude); address := address0;
                 province := province0; timestamp := t;
                 coverage := cov; errors := errs;
                 success := (0 <? size cov)%nat |} in
            (if success results then addToCache key results else ret tt) ;;;
            ret results
        end
    end.

End Host.

End MTNApi.

(** ** [ApiClient] *)

Module ApiClient.

(** An element of the [types] array of a processed technology. *)
Record ProxyType := {
  ptype : string;
  pavailable : bool;
  signal_strength : string;
  technology : string
}.

(** The object returned by [ApiClient.checkCoverage]. *)
Record ProxyCoverage := {
  p_address : string;
  p_coordinates : number * number;
  p_coverage : list (string * list ProxyType);
  p_timestamp : Z;
  p_source : string;
  p_error : option string
}.

(** [obj[key] = v] on an object kept as its list of entries. *)
Fixpoint obj_set {V} (obj : list (string * V)) (key : string) (v : V) : list (string * V) :=
  match obj with
  | [] => [(key, v)]
  | (k, x) :: rest =>
      if String.eqb k key then (k, v) :: rest else (k, x) :: obj_set rest key v
  end.

(** [s.includes(sub)] *)
Fixpoint includes (s sub : string) : bool :=
  String.prefix sub s ||
  match s with
  | EmptyString => false
  | String _ rest => includes rest sub
  end.

(** [v === 'literal'] *)
Definition is_string (v : value) (literal : string) : bool :=
  match v with
  | Some (JStr s) => String.eqb s literal
  | _ => false
  end.

Definition technologies : list string :=
  ["2G"; "3G"; "4G"; "5G"; "UNCAPPED_WIRELESS"; "FIBRE"; "LICENSED_WIRELESS"; "FIXED_LTE"].

Section Host.

Variable h : host.

Definition parseCoverageResult (result : value) : outcome bool :=
  if negb (truthy result) then Ok false
  else
    type <-? get_prop result "type" ;;
    content <-? get_prop result "content" ;;
    if is_string type "text" && truthy content then
      match content with
      | Some (JStr text) =>
          let lowered := toLowerCase h text in
          Ok (negb (includes lowered "no features") &&
              negb (includes lowered "outside") &&
              negb (String.eqb (trim h lowered) ""))
      | _ => Throw (ErrorObj "result.content.toLowerCase is not a function")
      end
    else if is_string type "binary" && truthy content then Ok true
    else Ok false.

Definition checkSingleTechnology (lat lng : number) (tech : string) : M json :=
  try_catch
    (response <- fetch h (ReqProxyCoverage lat lng tech) ;;
     if negb (ok response) then
       let errorData := match body response with Ok j => j | Throw _ => JObj [] end in
       err <- lift (get_prop (Some errorData) "error") ;;
       throw (ErrorObj
                (match err with
                 | Some e => if truthy err then toString h e
                             else "HTTP " ++ numberToString h (int (status response))
                                  ++ ": " ++ statusText response
                 | None => "HTTP " ++ numberToString h (int (status response))
                           ++ ": " ++ statusText response
                 end))
     else response_json response)
    (fun e => throw e).

(** One element of [promises] in [checkMultipleTechnologies], followed by
    the assignment that [responses.forEach] makes for it. *)
Definition checkOne (lat lng : number) (results : list (string * value)) (tech : string)
  : M (list (string * value)) :=
  r <- try_catch
         (result <- checkSingleTechnology lat lng tech ;; ret (inl result))
         (fun e => ret (inr (message_or "Unknown error" e))) ;;
  match r with
  | inl result => ret (obj_set results tech (Some result))
  | inr msg =>
      if negb (String.eqb msg "")
      then ret (obj_set results tech (Some (JObj [("error", JStr msg)])))
      else ret (obj_set results tech None)
  end.

Definition checkMultipleTechnologies (lat lng : number) (techs : list string)
  : M (list (string * value)) :=
  forEachM (checkOne lat lng) techs [].

(** The callback of [Object.entries(results).forEach] in [checkCoverage]. *)
Definition processEntry (processed : list (string * list ProxyType))
  (entry : string * value) : outcome (list (string * list ProxyType)) :=
  let '(tech, result) := entry in
  let noSignal := [{| ptype := tech; pavailable := false;
                      signal_strength := "No Signal"; technology := tech |}] in
  match result with
  | Some r =>
      if truthy result && negb (truthy (member r "error")) then
        hasCoverage <-? parseCoverageResult result ;;
        Ok (obj_set processed tech
              [{| ptype := tech; pavailable := hasCoverage;
                  signal_strength := if hasCoverage then "Good" else "No Signal";
                  technology := tech |}])
      else Ok (obj_set processed tech noSignal)
  | None => Ok (obj_set processed tech noSignal)
  end.

Definition checkCoverage (lat lng : number) (addr : string) : M ProxyCoverage :=
  try_catch
    (results <- checkMultipleTechnologies lat lng technologies ;;
     processedCoverage <- lift (forEach processEntry results []) ;;
     t <- now h ;;
     ret {| p_address := addr; p_coordinates := (lat, lng);
            p_coverage := processedCoverage; p_timestamp := t;
            p_source := "MTN Live API (via Vercel proxy)"; p_error := None |})
    (fun e =>
       t <- now h ;;
       ret {| p_address := addr; p_coordinates := (lat, lng);
              p_coverage := []; p_timestamp := t;
              p_source := "MTN Live API (via Vercel proxy)";
              p_error := Some (message_or "Coverage check failed" e) |}).

End Host.

End ApiClient.

(** * Vocabulary of the statements *)

(** [framed m P]: [m] leaves the lookup cache alone and, when it returns
    normally, its result satisfies [P]. *)
Definition framed {A} (m : M A) (P : A -> Prop) : Prop :=
  forall w, cache (snd (m w)) = cache w /\ forall a, fst (m w) = Ok a -> P a.

(** [quiet m P]: moreover [m] always returns normally. *)
Definition quiet {A} (m : M A) (P : A -> Prop) : Prop :=
  forall w, exists a w', m w = (Ok a, w') /\ cache w' = cache w /\ P a.

Definition primary_entry (lat lng : number) (addr : option string)
  (r : option (gmap string SourceEntry)) : Prop :=
  r = None \/
  exists types, types <> [] /\
    r = Some {[ "mtnGeoServer" :=
                  MtnGeoServer true types "MTN GeoServer WMS" (lat, lng) addr None ]}.

(** No entry of a coverage map carries per-technology errors. *)
Definition clean (m : gmap string SourceEntry) : Prop :=
  forall k e, m !! k = Some e -> source_errors e = [].

Definition clean_opt (r : option (gmap string SourceEntry)) : Prop :=
  forall v, r = Some v -> clean v.

(** The entry of [key] that [getFromCache] would still return. *)
Definition fresh_entry (h : host) (key : string) (w : world) : option CacheEntry :=
  match cache w !! key with
  | Some e =>
      if (clock h (tick w) - created e <? MTNApi.cacheTimeout)%Z then Some e else None
  | None => None
  end.

Definition validationError : ErrorInfo :=
  {| endpoint := inr "validation"; error := "Coordinates are outside South Africa" |}.

(** The four ways a call can go: rejected coordinates, a cache hit, a
    lookup that found coverage (and is cached), a lookup that found none. *)
Definition run_shape (h : host) (lat lng : number) (addr : option string) (w : world)
  (r : CoverageResult) (w' : world) : Prop :=
  let key := MTNApi.cacheKey h lat lng in
  (MTNApi.isInSouthAfrica lat lng = false /\
     success r = false /\ province r = "Unknown" /\ coverage r = ∅ /\
     errors r = [validationError] /\
     cache w' = cache w /\ trace w' = trace w)
  \/ (MTNApi.isInSouthAfrica lat lng = true /\
      exists e, fresh_entry h key w = Some e /\ cache w !! key = Some e /\
                r = data e /\ cache w' = cache w)
  \/ (MTNApi.isInSouthAfrica lat lng = true /\ fresh_entry h key w = None /\
      success r = true /\ coverage r <> ∅ /\ errors r = [] /\ clean (coverage r) /\
      exists t, cache w' = <[key := {| data := r; created := t |}]> (delete key (cache w)))
  \/ (MTNApi.isInSouthAfrica lat lng = true /\ fresh_entry h key w = None /\
      success r = false /\ coverage r = ∅ /\ errors r = [] /\
      cache w' = delete key (cache w)).

(** What holds of every result that [checkCoverage] stores in the cache. *)
Definition good_result (r : CoverageResult) : Prop :=
  success r = true /\ coverage r <> ∅ /\ errors r = [] /\ clean (coverage r).

Definition cache_ok (c : gmap string CacheEntry) : Prop :=
  forall k e, c !! k = Some e -> good_result (data e).

(** The worlds a program can be in: a fresh [MTNApi] instance has an empty
    cache, and the cache is private, so it changes through [checkCoverage]
    only (under any host, which may differ from call to call). *)
Inductive reachable : world -> Prop :=
| reach_init t tr : reachable {| cache := ∅; tick := t; trace := tr |}
| reach_call h lat lng addr w :
    reachable w -> reachable (snd (MTNApi.checkCoverage h lat lng addr w)).

(** The configured envelope: latitude in [-35, -22], longitude in [16, 33]. *)
Definition in_envelope (lat lng : number) : Prop :=
  exists p q, lat = Fin p /\ lng = Fin q /\
              (-35 <= p)%Q /\ (p <= -22)%Q /\ (16 <= q)%Q /\ (q <= 33)%Q.


(** [h] with another [toFixed]. *)
Definition with_toFixed (h : host) (f : number -> nat -> string) : host :=
  {| net := net h; clock := clock h; numberToString := numberToString h;
     toFixed := f; toNumber := toNumber h; toString := toString h;
     toLowerCase := toLowerCase h; trim := trim h |}.

(** ** A host and inputs for the examples *)

Module Example.

Definition show_Z (z : Z) : string := NilEmpty.string_of_int (Z.to_int z).

Fixpoint zeros (n : nat) : string :=
  match n with
  | O => ""
  | S k => "0" ++ zeros k
  end.

(** [Number.prototype.toFixed]: the decimal with [digits] places nearest
    to the number, the larger one on a tie. *)
Definition fixed (x : number) (digits : nat) : string :=
  match x with
  | Fin q =>
      let scale := (10 ^ Z.of_nat digits)%Z in
      let n := Qfloor (Qabs q * inject_Z scale + (1 # 2)) in
      let fraction := show_Z (n mod scale) in
      (if Qlt_le_dec q 0 then "-" else "") ++ show_Z (n / scale) ++
      match digits with
      | O => ""
      | _ => "." ++ zeros (digits - String.length fraction) ++ fraction
      end
  | PosInf => "Infinity"
  | NegInf => "-Infinity"
  | NaN => "NaN"
  end.

(** Printing of a number: integers in decimal, other numbers with six
    decimals. *)
Definition showNumber (x : number) : string :=
  match x with
  | Fin q => if Qeq_bool q (inject_Z (Qfloor q)) then show_Z (Qfloor q) else fixed x 6
  | _ => fixed x 0
  end.

Definition lower_ascii (c : ascii) : ascii :=
  let n := nat_of_ascii c in
  if ((65 <=? n) && (n <=? 90))%nat then ascii_of_nat (n + 32) else c.

Fixpoint lower (s : string) : string :=
  match s with
  | EmptyString => EmptyString
  | String c rest => String (lower_ascii c) (lower rest)
  end.

Fixpoint trim_start (s : string) : string :=
  match s with
  | String " " rest => trim_start rest
  | _ => s
  end.

Definition showValue (j : json) : string :=
  match j with
  | JStr s => s
  | JNum n => showNumber n
  | JBool true => "true"
  | _ => "[object Object]"
  end.

Definition make_host (network : nat -> request -> fetch_outcome) (time : nat -> Z) : host :=
  {| net := network; clock := time;
     numberToString := showNumber; toFixed := fixed;
     toNumber := fun _ => NaN; toString := showValue;
     toLowerCase := lower; trim := trim_start |}.

Definition fresh_world : world := {| cache := ∅; tick := 0; trace := [] |}.

(** Johannesburg *)
Definition jhb_lat : number := Fin (-262041 # 10000).
Definition jhb_lng : number := Fin (280473 # 10000).

Definition feature (props : list (string * json)) : json :=
  JObj [("type", JStr "Feature"); ("properties", JObj props)].

Definition featureCollection (features : list json) : json :=
  JObj [("type", JStr "FeatureCollection"); ("features", JArr features)].

Definition failed_to_fetch : fetch_outcome := FetchRejects (ErrorObj "Failed to fetch").

Definition answer (j : json) : fetch_outcome :=
  FetchResolves {| status := 200; statusText := "OK"; body := Ok j |}.

(** Every request fails. *)
Definition offline : host := make_host (fun _ _ => failed_to_fetch) (fun _ => 1000%Z).

(** The 2G layer cannot be reached, the 4G layer reports one feature, the
    other layers report none; the fallback endpoints are unreachable. *)
Definition partial_network (n : nat) (r : request) : fetch_outcome :=
  match r with
  | ReqGeoServerFeatureInfo _ _ layer =>
      if String.eqb (geoserverLayer layer) "mtnsi:MTNSA-Coverage-2G" then failed_to_fetch
      else if String.eqb (geoserverLayer layer) "mtnsi:MTNSA-Coverage-4G"
           then answer (featureCollection [feature [("NAME", JStr "LTE")]])
           else answer (featureCollection [])
  | _ => failed_to_fetch
  end.

Definition partial : host := make_host partial_network (fun _ => 1000%Z).

(** Three features that report a signal of 90, and one that reports a
    negative [rssi]. *)
Definition strong_features : list json :=
  [feature [("signal", JNum (int 90))]; feature [("signal", JNum (int 90))];
   feature [("signal", JNum (int 90))]].


Definition layer2G : LayerConfig :=
  {| mlid := "EBU-RBUS-ALL"; geoserverLayer := "mtnsi:MTNSA-Coverage-2G";
     style := "MTN-Coverage-2G"; opacity := 7 # 10 |}.

Definition layer4G : LayerConfig :=
  {| mlid := "EBU-RBUS-ALL"; geoserverLayer := "mtnsi:MTNSA-Coverage-4G";
     style := "MTN-Coverage-4G"; opacity := 7 # 10 |}.

Definition lte_feature : json := feature [("NAME", JStr "LTE")].

(** A result as [checkCoverage] caches it, and a world that holds it
    under the key ["k"] since time 0. *)
Definition cached_result : CoverageResult :=
  {| coordinates := (jhb_lat, jhb_lng); address := "Johannesburg";
     province := "Gauteng"; timestamp := 0;
     coverage := {[ "publicQuery" := PublicQuery true JNull "MTN Public Coverage Query" ]};
     errors := []; success := true |}.

Definition cached_world : world :=
  {| cache := {[ "k" := {| data := cached_result; created := 0 |} ]};
     tick := 0; trace := [] |}.

(** A host whose clock reads [t]. *)
Definition at_time (t : Z) : host := make_host (fun _ _ => failed_to_fetch) (fun _ => t).

End Example.

(** ** The strength analysis, in the words of the specification *)

(** The number of features of a response. *)
Definition feature_count (features : value) : nat :=
  match features with
  | Some (JArr items) => List.length items
  | _ => O
  end.

(** [high] if the score is at least 85 and there are at least 3 features;
    otherwise [medium] if the score is at least 65 or there are at least 2
    features; otherwise [low]. *)
Definition tier_spec (q : number) (n : nat) (s : Strength) : Prop :=
  (num_ge q (int 85) = true /\ (3 <= n)%nat -> s = high) /\
  (~ (num_ge q (int 85) = true /\ (3 <= n)%nat) ->
   (num_ge q (int 65) = true \/ (2 <= n)%nat) -> s = medium) /\
  (~ (num_ge q (int 85) = true /\ (3 <= n)%nat) ->
   ~ (num_ge q (int 65) = true \/ (2 <= n)%nat) -> s = low).

(** The numeric values, among those that [keep] retains, of the properties
    of one feature that are named in [signalProps]. *)
Definition props_values (keep : number -> bool) (props : json) : list number :=
  flat_map
    (fun prop =>
       match member props prop with
       | Some (JNum v) => if keep v then [v] else []
       | _ => []
       end)
    signalProps.

Definition feature_values (keep : number -> bool) (feature : json) : list number :=
  match member feature "properties" with
  | Some props => if truthy (Some props) then props_values keep props else []
  | None => []
  end.

Definition signal_values (keep : number -> bool) (items : list json) : list number :=
  flat_map (feature_values keep) items.

Definition sum_values (vals : list number) : number := fold_left num_add vals (int 0).

Definition average_rounded (vals : list number) : number :=
  Math_round (num_div_count (sum_values vals) (List.length vals)).


Definition clamp (q : number) : number := Math_min (int 100) (Math_max (int 0) q).


(** ** Feature collections and availability *)

Definition is_object (j : json) : Prop :=
  match j with
  | JObj _ => True
  | _ => False
  end.

(** A GeoJSON feature collection: an object of type ["FeatureCollection"]
    whose [features] member is an array of objects. *)
Definition feature_collection (d : json) (items : list json) : Prop :=
  exists members,
    d = JObj members /\
    assoc members "type" = Some (JStr "FeatureCollection") /\
    assoc members "features" = Some (JArr items) /\
    Forall is_object items.

(** The availability that [checkTechnologyCoverage] reports: [null]
    stands for no coverage. *)
Definition is_available (o : option Observation) : bool :=
  match o with
  | Some ob => obs_available ob
  | None => false
  end.

(** Every transport call fails: the request is rejected or the response
    is not ok. *)
Definition every_source_fails (h : host) : Prop :=
  forall n r, match net h n r with
              | FetchRejects _ => True
              | FetchResolves resp => ok resp = false
              end.

Definition is_fetch (e : event) : bool :=
  match e with
  | EvFetch _ => true
  | _ => false
  end.

(** The postcondition that asks nothing. *)
Definition anything {A} : A -> Prop := fun _ => True.

(** ** The projection over the reals *)

Module Mercator.

Local Open Scope R_scope.

(** Earth's radius in meters *)
Definition EARTH_RADIUS : R := 6378137.

(** [convertToSphericalMercator], with the arithmetic of the reals in
    place of that of doubles. *)
Definition convertToSphericalMercator (lat lng : R) : R * R :=
  let x := lng * PI / 180 * EARTH_RADIUS in
  let latRad := lat * PI / 180 in
  let y := ln (tan (latRad / 2 + PI / 4)) * EARTH_RADIUS in
  (x, y).

(** The inverse projection does not occur in the code; this is the
    textbook inverse of the spherical projection, giving latitude and
    longitude in degrees. *)
Definition inverseMercator (x y : R) : R * R :=
  ((2 * atan (exp (y / EARTH_RADIUS)) - PI / 2) * 180 / PI,
   x / EARTH_RADIUS * 180 / PI).

End Mercator.

(** * Counting transport calls *)

(** The number of [fetch] calls recorded in a trace. *)
Fixpoint count_fetches (t : list event) : nat :=
  match t with
  | [] => O
  | e :: rest => (if is_fetch e then 1 else 0) + count_fetches rest
  end.

Definition transport_calls (w : world) : nat := count_fetches (trace w).

(** [attempts m n P]: whatever its outcome, [m] leaves the cache alone and
    makes exactly [n] transport calls; a value it returns satisfies [P]. *)
Definition attempts {A} (m : M A) (n : nat) (P : A -> Prop) : Prop :=
  forall w,
    cache (snd (m w)) = cache w /\
    transport_calls (snd (m w)) = (transport_calls w + n)%nat /\
    forall a, fst (m w) = Ok a -> P a.

(** [runs m n P]: moreover [m] returns normally. *)
Definition runs {A} (m : M A) (n : nat) (P : A -> Prop) : Prop :=
  forall w, exists a w',
    m w = (Ok a, w') /\ cache w' = cache w /\
    transport_calls w' = (transport_calls w + n)%nat /\ P a.

(** A fallback answer never uses the key of the primary source. *)
Definition no_primary (r : option (gmap string SourceEntry)) : Prop :=
  forall v, r = Some v -> v !! "mtnGeoServer" = None.

(** The run of [checkCoverage] on the partially failing network of the
    examples, and its result. *)
Definition partial_run : outcome CoverageResult * world :=
  MTNApi.checkCoverage Example.partial Example.jhb_lat Example.jhb_lng None Example.fresh_world.

Definition partial_result : CoverageResult :=
  match fst partial_run with
  | Ok r => r
  | Throw _ => Example.cached_result
  end.

(** ** Province envelopes *)

(** The test that [getProvince] applies to one row of its table. *)
Definition inside (row : string * (number * number) * (number * number))
  (lat lng : number) : bool :=
  let '(_, (lat0, lat1), (lng0, lng1)) := row in
  num_ge lat lat0 && num_le lat lat1 && num_ge lng lng0 && num_le lng lng1.

Definition row_name (row : string * (number * number) * (number * number)) : string :=
  fst (fst row).

(** ** Scores *)

(** A running total of positive values: a finite number or plus infinity. *)
Definition summable (t : number) : Prop := t = PosInf \/ exists q, t = Fin q.

(** A score as the analysis reports it: an integer from 0 to 100. *)
Definition score (q : number) : Prop := exists z, q = int z /\ (0 <= z <= 100)%Z.

(** ** Observations of the primary source *)

(** What every observation built by [checkTechnologyCoverage] satisfies. *)
Definition observation_ok (o : Observation) : Prop :=
  obs_available o = true /\
  infrastructureType o = getTechnologyDescription (obs_type o) /\
  (exists items, obs_features o = Some (JArr items) /\ items <> []) /\
  score (obs_quality o) /\
  tier_spec (obs_quality o) (feature_count (obs_features o)) (obs_strength o).

(** ** The page that shows the result *)

Module App.

(** [technologies.includes(t)] *)
Definition includes (technologies : list string) (t : string) : bool :=
  existsb (String.eqb t) technologies.

(** The callback of [source.types.forEach] in [handleAddressSelect]. *)
Definition collectType (technologies : list string) (tech : ApiClient.ProxyType) : list string :=
  if ApiClient.pavailable tech && negb (includes technologies (ApiClient.ptype tech))
  then (technologies ++ [ApiClient.ptype tech])%list
  else technologies.

(** The technologies that [handleAddressSelect] extracts from the object
    returned by [ApiClient.checkCoverage], whose [coverage] is always an
    object and whose sources always have a [types] array. *)
Definition availableTechnologies (result : ApiClient.ProxyCoverage) : list string :=
  fold_left (fun technologies source => fold_left collectType (snd source) technologies)
            (ApiClient.p_coverage result) [].

Definition allOff : list (string * bool) :=
  [("2G", false); ("3G", false); ("4G", false); ("5G", false);
   ("UNCAPPED_WIRELESS", false); ("FIBRE", false); ("LICENSED_WIRELESS", false);
   ("FIXED_LTE", false)].

(** [newToggleState] after [technologies.forEach(tech => newToggleState[tech] = true)] *)
Definition newToggleState (technologies : list string) : list (string * bool) :=
  fold_left (fun state tech => ApiClient.obj_set state tech true) technologies allOff.

(** [state[tech]] *)
Fixpoint toggled (state : list (string * bool)) (tech : string) : option bool :=
  match state with
  | [] => None
  | (k, v) :: rest => if String.eqb k tech then Some v else toggled rest tech
  end.

End App.

(** ** Vocabulary for the proxy client *)

(** The entry that [ApiClient.checkCoverage] stores for a technology. *)
Definition proxy_entry (tech : string) (hasCoverage : bool) : list ApiClient.ProxyType :=
  [{| ApiClient.ptype := tech; ApiClient.pavailable := hasCoverage;
      ApiClient.signal_strength := if hasCoverage then "Good" else "No Signal";
      ApiClient.technology := tech |}].

Definition proxy_entry_ok (entry : string * list ApiClient.ProxyType) : Prop :=
  exists hasCoverage, snd entry = proxy_entry (fst entry) hasCoverage.

(** The keys of an object after [obj[key] = v]. *)
Definition add_key (keys : list string) (key : string) : list string :=
  if existsb (String.eqb key) keys then keys else (keys ++ [key])%list.

(** A result of the proxy with a binary payload, and a network that
    answers every proxy request with it. *)
Definition binary_result : json :=
  JObj [("type", JStr "binary"); ("content", JStr "iVBORw0KGgo="); ("contentType", JStr "image/png")].

Definition all_binary : host :=
  Example.make_host (fun _ _ => Example.answer binary_result) (fun _ => 1000%Z).

(** What [checkMultipleTechnologies] stores for a technology whose check
    failed: the error message, or nothing when the message is empty. *)
Definition failed_value (v : value) : Prop :=
  v = None \/ exists msg, msg <> "" /\ v = Some (JObj [("error", JStr msg)]).

(** ** More arithmetic on numbers *)







(** ** The tower data and the fixed wireless service *)

Module KMLParser.

Record TaranaTower := {
  id : string;
  name : string;
  lat : number;
  lng : number;
  altitude : number;
  heading : option number
}.

Record Bounds := { north : number; south : number; east : number; west : number }.

(** The body of the loop of [calculateBounds]. *)
Definition widen (b : Bounds) (tower : TaranaTower) : Bounds :=
  {| north := Math_max (north b) (lat tower);
     south := Math_min (south b) (lat tower);
     east := Math_max (east b) (lng tower);
     west := Math_min (west b) (lng tower) |}.

Definition calculateBounds (towers : list TaranaTower) : Bounds :=
  match towers with
  | [] => {| north := int 0; south := int 0; east := int 0; west := int 0 |}
  | _ =>
      fold_left widen towers
        {| north := int (-90); south := int 90; east := int (-180); west := int 180 |}
  end.

Record Metadata := { date : string; totalTowers : nat; bounds : Bounds }.

Record Overlay := { imageUrl : string; overlayBounds : Bounds }.

Record TaranaCoverageData := {
  towers : list TaranaTower;
  coverageOverlay : Overlay;
  metadata : Metadata
}.

(** The [TaranaCoverageData] that [parseKML] builds from the towers and the
    ground overlay it has read. *)
Definition assemble (found : list TaranaTower) (overlay : Overlay) : TaranaCoverageData :=
  {| towers := found;
     coverageOverlay := overlay;
     metadata := {| date := "2025-07-16";
                    totalTowers := List.length found;
                    bounds := calculateBounds found |} |}.

End KMLParser.

Module TaranaCoverageService.




(** [isWithinCoverageBounds], for the [coverageData] of the service. *)
Definition isWithinCoverageBounds (coverageData : option KMLParser.TaranaCoverageData)
  (lat lng : number) : bool :=
  match coverageData with
  | None => false
  | Some d =>
      let b := KMLParser.bounds (KMLParser.metadata d) in
      num_ge lat (KMLParser.south b) && num_le lat (KMLParser.north b) &&
      num_ge lng (KMLParser.west b) && num_le lng (KMLParser.east b)
  end.

End TaranaCoverageService.

(** A tower in Sandton and one in Soweto. *)
Definition sandton : KMLParser.TaranaTower :=
  {| KMLParser.id := "Sandton_261076_280567"; KMLParser.name := "Sandton";
     KMLParser.lat := Fin (-261076 # 10000); KMLParser.lng := Fin (280567 # 10000);
     KMLParser.altitude := int 1600; KMLParser.heading := None |}.

Definition soweto : KMLParser.TaranaTower :=
  {| KMLParser.id := "Soweto_262485_278540"; KMLParser.name := "Soweto";
     KMLParser.lat := Fin (-262485 # 10000); KMLParser.lng := Fin (278540 # 10000);
     KMLParser.altitude := int 1650; KMLParser.heading := Some (int 90) |}.

(** A tower lies in a box. *)
Definition in_box (b : KMLParser.Bounds) (tower : KMLParser.TaranaTower) : Prop :=
  num_ge (KMLParser.lat tower) (KMLParser.south b) = true /\
  num_le (KMLParser.lat tower) (KMLParser.north b) = true /\
  num_ge (KMLParser.lng tower) (KMLParser.west b) = true /\
  num_le (KMLParser.lng tower) (KMLParser.east b) = true.

(** The coordinates of a tower that [parseKML] keeps are not [NaN]. *)
Definition located (tower : KMLParser.TaranaTower) : Prop :=
  KMLParser.lat tower <> NaN /\ KMLParser.lng tower <> NaN.

Definition box_defined (b : KMLParser.Bounds) : Prop :=
  KMLParser.north b <> NaN /\ KMLParser.south b <> NaN /\
  KMLParser.east b <> NaN /\ KMLParser.west b <> NaN.

(** The coordinates of a tower are a latitude and a longitude. *)
Definition on_globe (tower : KMLParser.TaranaTower) : Prop :=
  num_ge (KMLParser.lat tower) (int (-90)) = true /\
  num_le (KMLParser.lat tower) (int 90) = true /\
  num_ge (KMLParser.lng tower) (int (-180)) = true /\
  num_le (KMLParser.lng tower) (int 180) = true.

(** Each edge of [b'] is the edge of [b] or a coordinate of one of the towers. *)
Definition edges_from (b : KMLParser.Bounds) (towers : list KMLParser.TaranaTower)
  (b' : KMLParser.Bounds) : Prop :=
  (KMLParser.north b' = KMLParser.north b \/
   exists t, In t towers /\ KMLParser.north b' = KMLParser.lat t) /\
  (KMLParser.south b' = KMLParser.south b \/
   exists t, In t towers /\ KMLParser.south b' = KMLParser.lat t) /\
  (KMLParser.east b' = KMLParser.east b \/
   exists t, In t towers /\ KMLParser.east b' = KMLParser.lng t) /\
  (KMLParser.west b' = KMLParser.west b \/
   exists t, In t towers /\ KMLParser.west b' = KMLParser.lng t).

(** * Reasoning about the monad *)



Lemma quiet_framed {A} (m : M A) P : quiet m P -> framed m P.
Proof.
  intros Hq w. destruct (Hq w) as (a & w' & E & Hc & Hp). rewrite E. simpl.
  split; [exact Hc|]. intros b Hb. inversion Hb; subst; exact Hp.
Qed.

Lemma framed_weaken {A} (m : M A) (P Q : A -> Prop) :
  framed m P -> (forall a, P a -> Q a) -> framed m Q.
Proof. intros Hm HPQ w. destruct (Hm w) as [Hc Hp]. split; [exact Hc|]. eauto. Qed.

Lemma quiet_weaken {A} (m : M A) (P Q : A -> Prop) :
  quiet m P -> (forall a, P a -> Q a) -> quiet m Q.
Proof.
  intros Hm HPQ w. destruct (Hm w) as (a & w' & E & Hc & Hp). eauto 6.
Qed.

Lemma framed_ret {A} (a : A) (P : A -> Prop) : P a -> framed (ret a) P.
Proof. intros Hp w. simpl. split; [reflexivity|]. intros b Hb. inversion Hb; subst; exact Hp. Qed.

Lemma quiet_ret {A} (a : A) (P : A -> Prop) : P a -> quiet (ret a) P.
Proof. intros Hp w. exists a, w. auto. Qed.

Lemma framed_throw {A} (e : thrown) (P : A -> Prop) : framed (throw e) P.
Proof. intros w. simpl. split; [reflexivity|]. intros b Hb. discriminate. Qed.

Lemma framed_lift {A} (o : outcome A) (P : A -> Prop) :
  (forall a, o = Ok a -> P a) -> framed (lift o) P.
Proof. intros Hp w. simpl. split; [reflexivity|]. exact Hp. Qed.

Lemma framed_bind {A B} (m : M A) (k : A -> M B) (P : A -> Prop) (Q : B -> Prop) :
  framed m P -> (forall a, P a -> framed (k a) Q) -> framed (bind m k) Q.
Proof.
  intros Hm Hk w. unfold bind. destruct (Hm w) as [Hc Hp].
  destruct (m w) as [[a|e] w1]; simpl in *.
  - destruct (Hk a (Hp a eq_refl) w1) as [Hc' Hq]. split; [congruence | exact Hq].
  - split; [exact Hc | discriminate].
Qed.

Lemma quiet_bind {A B} (m : M A) (k : A -> M B) (P : A -> Prop) (Q : B -> Prop) :
  quiet m P -> (forall a, P a -> quiet (k a) Q) -> quiet (bind m k) Q.
Proof.
  intros Hm Hk w. unfold bind. destruct (Hm w) as (a & w1 & E & Hc & Hp). rewrite E.
  destruct (Hk a Hp w1) as (b & w2 & E2 & Hc2 & Hq). exists b, w2.
  repeat split; [exact E2 | congruence | exact Hq].
Qed.

Lemma framed_try_catch {A} (body : M A) (handler : thrown -> M A) (P : A -> Prop) :
  framed body P -> (forall e, framed (handler e) P) -> framed (try_catch body handler) P.
Proof.
  intros Hb Hh w. unfold try_catch. destruct (Hb w) as [Hc Hp].
  destruct (body w) as [[a|e] w1]; simpl in *.
  - split; [exact Hc | exact Hp].
  - destruct (Hh e w1) as [Hc' Hq]. split; [congruence | exact Hq].
Qed.

(** A [try] whose handler returns normally always returns normally. *)
Lemma quiet_try_catch {A} (body : M A) (handler : thrown -> M A) (P : A -> Prop) :
  framed body P -> (forall e, quiet (handler e) P) -> quiet (try_catch body handler) P.
Proof.
  intros Hb Hh w. unfold try_catch. destruct (Hb w) as [Hc Hp].
  destruct (body w) as [[a|e] w1]; simpl in *.
  - exists a, w1. auto.
  - destruct (Hh e w1) as (b & w2 & E & Hc' & Hq). exists b, w2.
    repeat split; [exact E | congruence | exact Hq].
Qed.

Lemma quiet_settle {A} (m : M A) (P : A -> Prop) :
  quiet m P -> quiet (settle m) (fun s => exists a, s = Fulfilled a /\ P a).
Proof.
  intros Hm w. unfold settle. destruct (Hm w) as (a & w1 & E & Hc & Hp). rewrite E.
  exists (Fulfilled a), w1. eauto.
Qed.

Lemma quiet_forEachM {A S} (f : S -> A -> M S) (I : S -> Prop) (l : list A) :
  (forall s x, I s -> quiet (f s x) I) ->
  forall s, I s -> quiet (forEachM f l s) I.
Proof.
  intros Hf. induction l as [|x rest IH]; intros s Hs; simpl.
  - apply quiet_ret; exact Hs.
  - eapply quiet_bind; [apply Hf; exact Hs|]. intros s' Hs'. apply IH; exact Hs'.
Qed.

Lemma framed_fetch h r : framed (fetch h r) (fun _ => True).
Proof.
  intros w. unfold fetch. destruct (net h (tick w) r); simpl; auto.
Qed.

Lemma framed_now h : framed (now h) (fun _ => True).
Proof. intros w. simpl. auto. Qed.

Section HelperFacts.

Variable h : host.

(** [checkTechnologyCoverage] catches everything: it never throws. *)
Lemma checkTechnologyCoverage_quiet lat lng techType layerConfig :
  quiet (MTNApi.checkTechnologyCoverage h lat lng techType layerConfig)
        (fun r => forall o, r = Some o -> obs_type o = techType /\ obs_available o = true).
Proof.
  unfold MTNApi.checkTechnologyCoverage.
  apply quiet_try_catch.
  - eapply framed_bind; [apply framed_fetch|]. intros response _.
    destruct (ok response).
    + eapply framed_bind; [apply framed_lift; intros; exact I|]. intros d _.
      eapply framed_bind; [apply framed_lift; intros; exact I|]. intros features _.
      eapply framed_bind; [apply framed_lift; intros; exact I|]. intros len _.
      destruct (truthy features && gt_zero h len).
      * eapply framed_bind; [apply framed_lift; intros; exact I|]. intros an _.
        apply framed_ret. intros o Ho. inversion Ho; subst; simpl; auto.
      * apply framed_ret. discriminate.
    + apply framed_ret. discriminate.
  - intros e. apply quiet_ret. discriminate.
Qed.

(** Hence the [catch] of the loop body never runs and [errors] stays as it is. *)
Lemma probeLayer_quiet lat lng av errs entry :
  quiet (MTNApi.probeLayer h lat lng (av, errs) entry) (fun acc => snd acc = errs).
Proof.
  unfold MTNApi.probeLayer. destruct entry as [techType layerConfig].
  eapply quiet_weaken with (P := fun acc => snd acc = errs); [|auto].
  intros w. unfold try_catch, bind.
  destruct (checkTechnologyCoverage_quiet lat lng techType layerConfig w)
    as (r & w1 & E & Hc & _).
  rewrite E. destruct r as [c|]; simpl; eauto.
Qed.


Lemma getRealMTNCoverage_quiet lat lng addr :
  quiet (MTNApi.getRealMTNCoverage h lat lng addr) (primary_entry lat lng addr).
Proof.
  unfold MTNApi.getRealMTNCoverage.
  apply quiet_try_catch; [|intros e; apply quiet_ret; left; reflexivity].
  apply quiet_framed.
  eapply quiet_bind.
  - apply (quiet_forEachM (MTNApi.probeLayer h lat lng) (fun acc => snd acc = [])).
    + intros [av errs] x Hs. simpl in Hs. subst errs. apply probeLayer_quiet.
    + reflexivity.
  - intros [av errs] Herrs. simpl in Herrs. subst errs.
    destruct av as [|o rest].
    + apply quiet_ret. left; reflexivity.
    + apply quiet_ret. right. exists (o :: rest). split; [discriminate | reflexivity].
Qed.


Lemma clean_empty : clean ∅.
Proof. intros k e H. rewrite lookup_empty in H. discriminate. Qed.

Lemma clean_singleton k e : source_errors e = [] -> clean {[ k := e ]}.
Proof.
  intros He k' e' H. apply lookup_singleton_Some in H. destruct H as [_ <-]. exact He.
Qed.

Lemma clean_union (m1 m2 : gmap string SourceEntry) : clean m1 -> clean m2 -> clean (m1 ∪ m2).
Proof.
  intros H1 H2 k e H. apply lookup_union_Some_raw in H.
  destruct H as [H | [_ H]]; eauto.
Qed.


Ltac fallback_quiet :=
  apply quiet_try_catch; [|intros e; apply quiet_ret; discriminate];
  eapply framed_bind; [apply framed_fetch|]; intros response _;
  destruct (ok response); [|apply framed_ret; discriminate];
  eapply framed_bind; [apply framed_lift; intros; exact I|]; intros d _.

Lemma tryPublicCoverageQuery_quiet lat lng :
  quiet (MTNApi.tryPublicCoverageQuery h lat lng) clean_opt.
Proof.
  unfold MTNApi.tryPublicCoverageQuery. fallback_quiet.
  apply framed_ret. intros v Hv. inversion Hv. apply clean_singleton. reflexivity.
Qed.

Lemma tryCoverageApiPoint_quiet lat lng :
  quiet (MTNApi.tryCoverageApiPoint h lat lng) clean_opt.
Proof.
  unfold MTNApi.tryCoverageApiPoint. fallback_quiet.
  apply framed_ret. intros v Hv. inversion Hv. apply clean_singleton. reflexivity.
Qed.

Lemma tryWMSFeatureInfo_quiet lat lng :
  quiet (MTNApi.tryWMSFeatureInfo h lat lng) clean_opt.
Proof.
  unfold MTNApi.tryWMSFeatureInfo. fallback_quiet.
  eapply framed_bind; [apply framed_lift; intros; exact I|]. intros features _.
  apply framed_ret. intros v Hv. inversion Hv. apply clean_singleton. reflexivity.
Qed.

Lemma tryAlternativeEndpoint_quiet lat lng :
  quiet (MTNApi.tryAlternativeEndpoint h lat lng) clean_opt.
Proof.
  unfold MTNApi.tryAlternativeEndpoint. fallback_quiet.
  apply framed_ret. intros v Hv. inversion Hv. apply clean_singleton. reflexivity.
Qed.

(** *** The lookup cache *)

Lemma getFromCache_fresh key w e :
  cache w !! key = Some e ->
  (clock h (tick w) - created e <? MTNApi.cacheTimeout)%Z = true ->
  MTNApi.getFromCache h key w =
    (Ok (Some (data e)),
     {| cache := cache w; tick := S (tick w); trace := trace w ++ [EvCacheGet key] |}).
Proof.
  intros Hl Ht. unfold MTNApi.getFromCache, MTNApi.cacheGet, bind, emit, now. simpl.
  rewrite Hl. simpl. rewrite Ht. reflexivity.
Qed.

Lemma getFromCache_expired key w e :
  cache w !! key = Some e ->
  (clock h (tick w) - created e <? MTNApi.cacheTimeout)%Z = false ->
  MTNApi.getFromCache h key w =
    (Ok None,
     {| cache := delete key (cache w); tick := S (tick w);
        trace := (trace w ++ [EvCacheGet key]) ++ [EvCacheDelete key] |}).
Proof.
  intros Hl Ht. unfold MTNApi.getFromCache, MTNApi.cacheGet, bind, emit, now. simpl.
  rewrite Hl. simpl. rewrite Ht. reflexivity.
Qed.

Lemma getFromCache_absent key w :
  cache w !! key = None ->
  MTNApi.getFromCache h key w =
    (Ok None,
     {| cache := delete key (cache w); tick := tick w;
        trace := (trace w ++ [EvCacheGet key]) ++ [EvCacheDelete key] |}).
Proof.
  intros Hl. unfold MTNApi.getFromCache, MTNApi.cacheGet, bind, emit. simpl.
  rewrite Hl. reflexivity.
Qed.

Lemma addToCache_eq key d w :
  MTNApi.addToCache h key d w =
    (Ok tt,
     {| cache := <[key := {| data := d; created := clock h (tick w) |}]> (cache w);
        tick := S (tick w); trace := trace w ++ [EvCacheSet key] |}).
Proof. reflexivity. Qed.

(** *** The shape of every run of [checkCoverage] *)



Lemma bind_ok {A B} (m : M A) (k : A -> M B) w a w1 :
  m w = (Ok a, w1) -> bind m k w = k a w1.
Proof. intros E. unfold bind. rewrite E. reflexivity. Qed.

Lemma processResponse_fulfilled cov errs i a :
  clean cov -> clean_opt a ->
  exists cov', MTNApi.processResponse (cov, errs) (i, Fulfilled a) = (cov', errs) /\ clean cov'.
Proof.
  intros Hc Ha. destruct a as [v|]; simpl.
  - exists (v ∪ cov). split; [reflexivity|]. apply clean_union; auto.
  - exists cov. auto.
Qed.

Lemma getFromCache_miss key w :
  fresh_entry h key w = None ->
  exists w1, MTNApi.getFromCache h key w = (Ok None, w1) /\
             cache w1 = delete key (cache w).
Proof.
  unfold fresh_entry. intros Hf. destruct (cache w !! key) as [e|] eqn:Hl.
  - destruct (clock h (tick w) - created e <? MTNApi.cacheTimeout)%Z eqn:Ht; [discriminate|].
    eexists. split; [apply (getFromCache_expired key w e Hl Ht) | reflexivity].
  - eexists. split; [apply (getFromCache_absent key w Hl) | reflexivity].
Qed.

Lemma getFromCache_hit key w e :
  fresh_entry h key w = Some e ->
  exists w1, MTNApi.getFromCache h key w = (Ok (Some (data e)), w1) /\
             cache w1 = cache w /\ cache w !! key = Some e.
Proof.
  unfold fresh_entry. intros Hf. destruct (cache w !! key) as [e'|] eqn:Hl; [|discriminate].
  destruct (clock h (tick w) - created e' <? MTNApi.cacheTimeout)%Z eqn:Ht; [|discriminate].
  inversion Hf; subst e'.
  eexists. split; [apply (getFromCache_fresh key w e Hl Ht) | split; reflexivity].
Qed.


Lemma checkCoverage_runs lat lng addr w :
  exists r w', MTNApi.checkCoverage h lat lng addr w = (Ok r, w') /\
               run_shape h lat lng addr w r w'.
Proof.
  unfold MTNApi.checkCoverage, run_shape.
  destruct (MTNApi.isInSouthAfrica lat lng) eqn:Hin; cbn [negb].
  2:{ eexists _, _. split; [reflexivity|]. left. simpl. repeat split; reflexivity. }
  set (key := MTNApi.cacheKey h lat lng).
  destruct (fresh_entry h key w) as [e|] eqn:Hf.
  { destruct (getFromCache_hit key w e Hf) as (w1 & E & Hc & Hl).
    rewrite (bind_ok _ _ _ _ _ E). eexists _, _. split; [reflexivity|].
    right; left. split; [reflexivity|]. exists e. auto. }
  destruct (getFromCache_miss key w Hf) as (w1 & E & Hc).
  rewrite (bind_ok _ _ _ _ _ E). cbv beta iota.
  rewrite (bind_ok _ _ w1 (clock h (tick w1)) (next_tick w1) eq_refl).
  destruct (getRealMTNCoverage_quiet lat lng addr (next_tick w1)) as (rc & w2 & E2 & Hc2 & Hrc).
  simpl in Hc2. rewrite (bind_ok _ _ _ _ _ E2).
  destruct Hrc as [-> | (types & Hne & ->)].
  - (* the fallback tier *)
    destruct (quiet_settle _ _ (tryPublicCoverageQuery_quiet lat lng) w2)
      as (r0 & w3 & E3 & Hc3 & a0 & -> & Ha0).
    rewrite (bind_ok _ _ _ _ _ E3).
    destruct (quiet_settle _ _ (tryCoverageApiPoint_quiet lat lng) w3)
      as (r1 & w4 & E4 & Hc4 & a1 & -> & Ha1).
    rewrite (bind_ok _ _ _ _ _ E4).
    destruct (quiet_settle _ _ (tryWMSFeatureInfo_quiet lat lng) w4)
      as (r2 & w5 & E5 & Hc5 & a2 & -> & Ha2).
    rewrite (bind_ok _ _ _ _ _ E5).
    destruct (quiet_settle _ _ (tryAlternativeEndpoint_quiet lat lng) w5)
      as (r3 & w6 & E6 & Hc6 & a3 & -> & Ha3).
    rewrite (bind_ok _ _ _ _ _ E6).
    cbn [fold_left].
    destruct (processResponse_fulfilled ∅ [] 0%nat a0 clean_empty Ha0) as (c0 & -> & Hk0).
    destruct (processResponse_fulfilled c0 [] 1%nat a1 Hk0 Ha1) as (c1 & -> & Hk1).
    destruct (processResponse_fulfilled c1 [] 2%nat a2 Hk1 Ha2) as (c2 & -> & Hk2).
    destruct (processResponse_fulfilled c2 [] 3%nat a3 Hk2 Ha3) as (c3 & -> & Hk3).
    cbn [success].
    assert (Hcache : cache w6 = delete key (cache w)) by congruence.
    destruct (0 <? size c3)%nat eqn:Hsz.
    + eexists _, _. split; [unfold bind; rewrite addToCache_eq; reflexivity|].
      right; right; left. simpl. repeat split; auto.
      * intros ->. rewrite map_size_empty in Hsz. discriminate.
      * eexists. rewrite Hcache. reflexivity.
    + eexists _, _. split; [reflexivity|].
      right; right; right. simpl. repeat split; auto.
      apply Nat.ltb_ge in Hsz. apply map_size_empty_inv. lia.
  - (* the primary source answered *)
    eexists _, _. split; [unfold bind; rewrite addToCache_eq; reflexivity|].
    right; right; left. simpl. repeat split; auto.
    + apply clean_singleton. reflexivity.
    + eexists. f_equal. congruence.
Qed.

End HelperFacts.

(** *** Reachable worlds and the cached results *)




Lemma cache_ok_empty : cache_ok ∅.
Proof. intros k e H. rewrite lookup_empty in H. discriminate. Qed.

Lemma cache_ok_delete c k : cache_ok c -> cache_ok (delete k c).
Proof.
  intros Hc k' e H. apply lookup_delete_Some in H. destruct H as [_ H]. eauto.
Qed.

Lemma cache_ok_insert c k e : cache_ok c -> good_result (data e) -> cache_ok (<[k := e]> c).
Proof.
  intros Hc He k' e' H. apply lookup_insert_Some in H.
  destruct H as [[_ <-] | [_ H]]; eauto.
Qed.

Lemma run_shape_cache_ok h lat lng addr w r w' :
  cache_ok (cache w) -> run_shape h lat lng addr w r w' -> cache_ok (cache w').
Proof.
  intros Hok [H | [H | [H | H]]].
  - destruct H as (_ & _ & _ & _ & _ & -> & _). exact Hok.
  - destruct H as (_ & e & _ & _ & _ & ->). exact Hok.
  - destruct H as (_ & _ & Hs & Hne & He & Hcl & t & ->).
    apply cache_ok_insert; [apply cache_ok_delete; exact Hok|].
    simpl. repeat split; auto.
  - destruct H as (_ & _ & _ & _ & _ & ->). apply cache_ok_delete; exact Hok.
Qed.

Lemma reachable_cache_ok w : reachable w -> cache_ok (cache w).
Proof.
  induction 1 as [t tr | h lat lng addr w Hr IH]; simpl.
  - apply cache_ok_empty.
  - destruct (checkCoverage_runs h lat lng addr w) as (r & w' & E & Hs).
    rewrite E. simpl. eapply run_shape_cache_ok; eassumption.
Qed.

(** Whatever the path, a successful result carries no error entry at all. *)
Lemma run_shape_success_no_errors h lat lng addr w r w' :
  cache_ok (cache w) -> run_shape h lat lng addr w r w' ->
  (success r = true <-> coverage r <> ∅) /\
  (success r = true -> errors r = [] /\ clean (coverage r)).
Proof.
  intros Hok [H | [H | [H | H]]].
  - destruct H as (_ & Hs & _ & Hc & _). rewrite Hs, Hc. split; [split|]; intros; congruence.
  - destruct H as (_ & e & _ & Hl & -> & _). destruct (Hok _ _ Hl) as (Hs & Hne & He & Hcl).
    split; [split|]; auto.
  - destruct H as (_ & _ & Hs & Hne & He & Hcl & _). split; [split|]; auto.
  - destruct H as (_ & _ & Hs & Hc & _). rewrite Hs, Hc. split; [split|]; intros; congruence.
Qed.

(** *** The country envelope *)


Lemma num_ge_Fin p q : num_ge (Fin p) (Fin q) = true <-> (q <= p)%Q.
Proof.
  unfold num_ge. simpl. rewrite Qle_alt. rewrite <- (Qcompare_antisym p q).
  destruct (p ?= q)%Q; simpl; split; intros; congruence.
Qed.

Lemma num_le_Fin p q : num_le (Fin p) (Fin q) = true <-> (p <= q)%Q.
Proof.
  unfold num_le. simpl. rewrite Qle_alt.
  destruct (p ?= q)%Q; simpl; split; intros; congruence.
Qed.

Lemma isInSouthAfrica_spec lat lng :
  MTNApi.isInSouthAfrica lat lng = true <-> in_envelope lat lng.
Proof.
  unfold MTNApi.isInSouthAfrica, in_envelope, MTNApi.saBounds, int. cbn [MTNApi.south MTNApi.north MTNApi.east MTNApi.west].
  split.
  - intros H. repeat (apply andb_prop in H; destruct H as [H ?]).
    destruct lat as [p| | |]; try discriminate.
    destruct lng as [q| | |]; try discriminate.
    exists p, q. rewrite num_ge_Fin in *. rewrite num_le_Fin in *. auto 10.
  - intros (p & q & -> & -> & H1 & H2 & H3 & H4).
    rewrite <- num_ge_Fin in H1, H3. rewrite <- num_le_Fin in H2, H4.
    unfold int, inject_Z in *. rewrite H1, H2, H3, H4. reflexivity.
Qed.

Lemma outside_envelope lat lng :
  ~ in_envelope lat lng -> MTNApi.isInSouthAfrica lat lng = false.
Proof.
  intros H. destruct (MTNApi.isInSouthAfrica lat lng) eqn:E; [|reflexivity].
  apply isInSouthAfrica_spec in E. contradiction.
Qed.

(** ** Rejected coordinates and the success invariant *)

(** C1. For every coordinate pair outside the South Africa envelope
    (latitude in [-35, -22], longitude in [16, 33]), [checkCoverage] returns
    normally a result with [success = false], province ["Unknown"] and
    exactly the one validation error, and the trace of cache and network
    calls is the one it started with: no transport call was made. *)
Theorem C1_outside_rejected h lat lng addr w :
  ~ in_envelope lat lng ->
  exists r w',
    MTNApi.checkCoverage h lat lng addr w = (Ok r, w') /\
    success r = false /\
    province r = "Unknown" /\
    errors r = [{| endpoint := inr "validation";
                   error := "Coordinates are outside South Africa" |}] /\
    trace w' = trace w.
Proof.
  intros Hout. apply outside_envelope in Hout.
  destruct (checkCoverage_runs h lat lng addr w) as (r & w' & E & Hs).
  exists r, w'. split; [exact E|].
  destruct Hs as [H | [H | [H | H]]].
  - destruct H as (_ & Hsuc & Hp & _ & He & _ & Ht). auto.
  - destruct H as (Hin & _). congruence.
  - destruct H as (Hin & _). congruence.
  - destruct H as (Hin & _). congruence.
Qed.

Lemma origin_outside : ~ in_envelope (int 0) (int 0).
Proof.
  intros (p & q & Hp & Hq & H1 & H2 & _). inversion Hp; subst p.
  unfold Qle in H2. simpl in H2. lia.
Qed.

Lemma C1_outside_rejected_witness :
  exists r w',
    MTNApi.checkCoverage Example.offline (int 0) (int 0) None Example.fresh_world = (Ok r, w') /\
    success r = false /\
    province r = "Unknown" /\
    errors r = [{| endpoint := inr "validation";
                   error := "Coordinates are outside South Africa" |}] /\
    trace w' = trace Example.fresh_world.
Proof.
  apply (C1_outside_rejected Example.offline (int 0) (int 0) None Example.fresh_world).
  exact origin_outside.
Defined.

(** C10. For every coordinate pair outside the envelope, [checkCoverage]
    leaves the lookup cache as it was, records no cache read, write or
    delete (the trace is unchanged), and derives no cache key: the run is
    the same whatever [toFixed] would have answered. *)
Theorem C10_outside_cache_untouched h lat lng addr w :
  ~ in_envelope lat lng ->
  cache (snd (MTNApi.checkCoverage h lat lng addr w)) = cache w /\
  trace (snd (MTNApi.checkCoverage h lat lng addr w)) = trace w /\
  forall f, MTNApi.checkCoverage (with_toFixed h f) lat lng addr w
            = MTNApi.checkCoverage h lat lng addr w.
Proof.
  intros Hout. apply outside_envelope in Hout.
  unfold MTNApi.checkCoverage. rewrite Hout. simpl. auto.
Qed.

Lemma C10_outside_cache_untouched_witness :
  cache (snd (MTNApi.checkCoverage Example.offline (int 0) (int 0) None Example.fresh_world))
    = cache Example.fresh_world /\
  trace (snd (MTNApi.checkCoverage Example.offline (int 0) (int 0) None Example.fresh_world))
    = trace Example.fresh_world /\
  forall f, MTNApi.checkCoverage (with_toFixed Example.offline f) (int 0) (int 0) None
              Example.fresh_world
            = MTNApi.checkCoverage Example.offline (int 0) (int 0) None Example.fresh_world.
Proof.
  apply (C10_outside_cache_untouched Example.offline (int 0) (int 0) None Example.fresh_world).
  exact origin_outside.
Defined.



(** ** The strength analysis *)

Lemma scan_fold (props : json) (l : list string) (t : number) (c : nat) :
  fold_left
    (fun '(totalQuality, qualityCount) prop =>
       match member props prop with
       | Some (JNum v) =>
           if num_gt v (int 0) then (num_add totalQuality v, S qualityCount)
           else (totalQuality, qualityCount)
       | _ => (totalQuality, qualityCount)
       end) l (t, c)
  = (let vals := flat_map
                   (fun prop =>
                      match member props prop with
                      | Some (JNum v) => if num_gt v (int 0) then [v] else []
                      | _ => []
                      end) l in
     (fold_left num_add vals t, (c + List.length vals)%nat)).
Proof.
  revert t c. induction l as [|prop rest IH]; intros t c; simpl.
  - f_equal. lia.
  - destruct (member props prop) as [[| |v| | |]|]; try (rewrite IH; reflexivity).
    destruct (num_gt v (int 0)); rewrite IH; simpl; [f_equal; lia | reflexivity].
Qed.

Lemma scanProps_values props t c :
  scanProps props (t, c)
  = (fold_left num_add (props_values (fun v => num_gt v (int 0)) props) t,
     (c + List.length (props_values (fun v => num_gt v (int 0)) props))%nat).
Proof. unfold scanProps, props_values. apply scan_fold. Qed.

Lemma scanFeature_values feature t c :
  feature <> JNull ->
  scanFeature (t, c) feature
  = Ok (fold_left num_add (feature_values (fun v => num_gt v (int 0)) feature) t,
        (c + List.length (feature_values (fun v => num_gt v (int 0)) feature))%nat).
Proof.
  intros Hnn. unfold scanFeature, feature_values.
  assert (Hskip : Ok (t, c) = Ok (fold_left num_add [] t, (c + List.length (@nil number))%nat)).
  { cbn. rewrite Nat.add_0_r. reflexivity. }
  destruct feature; try contradiction; cbn [get_prop member obind];
    try (rewrite String.eqb_neq by discriminate); try exact Hskip;
    try (match goal with |- context [String.eqb ?a ?b] =>
           change (String.eqb a b) with false end; exact Hskip).
  destruct (assoc members "properties") as [p|]; [|exact Hskip].
  destruct (truthy (Some p)); [|exact Hskip].
  rewrite scanProps_values. reflexivity.
Qed.

(** On features none of which is [null], the loop returns the sum and the
    count of the positive signal values. *)
Lemma forEach_scanFeature items : forall t c,
  Forall (fun f => f <> JNull) items ->
  forEach scanFeature items (t, c)
  = Ok (fold_left num_add (signal_values (fun v => num_gt v (int 0)) items) t,
        (c + List.length (signal_values (fun v => num_gt v (int 0)) items))%nat).
Proof.
  induction items as [|f rest IH]; intros t c Hall; simpl.
  - f_equal. f_equal. lia.
  - inversion Hall as [|? ? Hf Hrest]; subst.
    rewrite (scanFeature_values f t c Hf). simpl. rewrite (IH _ _ Hrest).
    unfold signal_values. simpl. rewrite fold_left_app, length_app.
    f_equal. f_equal. lia.
Qed.

Lemma length_is_zero_array items :
  length_is_zero (JArr items) = match items with [] => true | _ => false end.
Proof. destruct items; reflexivity. Qed.

(** [analyzeCoverageFeatures] on a non-empty array of non-null features. *)
Lemma analyze_array items techType :
  items <> [] -> Forall (fun f => f <> JNull) items ->
  analyzeCoverageFeatures (Some (JArr items)) techType
  = let vals := signal_values (fun v => num_gt v (int 0)) items in
    let q := match vals with [] => defaultQuality techType | _ => average_rounded vals end in
    Ok {| strength := strengthOf q (List.length items); quality := clamp q |}.
Proof.
  intros Hne Hall. unfold analyzeCoverageFeatures.
  rewrite length_is_zero_array. destruct items as [|f rest]; [contradiction|].
  cbn [truthy negb orb]. rewrite (forEach_scanFeature _ _ _ Hall). cbn [obind].
  unfold average_rounded, sum_values.
  destruct (signal_values (fun v => num_gt v (int 0)) (f :: rest)); reflexivity.
Qed.

(** What clamping does to a finite score. *)
Lemma clamp_Fin q :
  exists q', clamp (Fin q) = Fin q' /\
    ((q <= 0 /\ q' == 0) \/ (0 <= q /\ q <= 100 /\ q' == q) \/ (100 <= q /\ q' == 100))%Q.
Proof.
  unfold clamp, Math_min, Math_max, int. cbn [num_compare].
  destruct (Qcompare_spec (inject_Z 0) q) as [E|L|G]; cbn [num_compare].
  - change (inject_Z 100 ?= inject_Z 0)%Q with Gt.
    eexists; split; [reflexivity|]. unfold inject_Z in *. lra.
  - destruct (Qcompare_spec (inject_Z 100) q) as [E'|L'|G'];
      (eexists; split; [reflexivity|]); unfold inject_Z in *; lra.
  - change (inject_Z 100 ?= inject_Z 0)%Q with Gt.
    eexists; split; [reflexivity|]. unfold inject_Z in *. lra.
Qed.

(** Clamping to the range 0..100 does not change how a score compares
    with a threshold inside that range. *)
Lemma num_ge_clamp (q0 : number) (t : Q) :
  (0 < t)%Q -> (t <= 100)%Q -> num_ge (clamp q0) (Fin t) = num_ge q0 (Fin t).
Proof.
  intros H0 H100. apply eq_true_iff_eq.
  destruct q0 as [q| | |].
  - destruct (clamp_Fin q) as (q' & -> & Hq'). rewrite !num_ge_Fin. lra.
  - change (clamp PosInf) with (Fin (inject_Z 100)). rewrite num_ge_Fin.
    unfold inject_Z. split; intros; [reflexivity | lra].
  - change (clamp NegInf) with (Fin (inject_Z 0)). rewrite num_ge_Fin.
    unfold inject_Z. split; intros; [exfalso; lra | discriminate].
  - reflexivity.
Qed.

Lemma tier_spec_strengthOf q0 n : tier_spec (clamp q0) n (strengthOf q0 n).
Proof.
  unfold tier_spec, strengthOf, int.
  rewrite (num_ge_clamp q0 (inject_Z 85)), (num_ge_clamp q0 (inject_Z 65))
    by (unfold Qlt, Qle; simpl; lia).
  destruct (num_ge q0 (Fin (inject_Z 85))), (num_ge q0 (Fin (inject_Z 65)));
    destruct (Nat.leb_spec 3 n), (Nat.leb_spec 2 n); simpl;
    repeat split; intros; try reflexivity; try lia; exfalso;
    intuition (try discriminate; try lia).
Qed.

Lemma tier_spec_zero : tier_spec (int 0) 0 low.
Proof.
  unfold tier_spec. cbn. repeat split; intros; try reflexivity;
    exfalso; intuition (try discriminate; try lia).
Qed.

(** C7. Whenever [analyzeCoverageFeatures] derives a score, the strength
    it returns is the tier of the returned score and the feature count:
    high if the score is at least 85 and there are at least 3 features,
    otherwise medium if the score is at least 65 or there are at least 2
    features, otherwise low.  On an array without [null] entries it always
    derives one. *)
Theorem C7_strength_tier features techType :
  (forall items, features = Some (JArr items) -> Forall (fun f => f <> JNull) items ->
     exists a, analyzeCoverageFeatures features techType = Ok a) /\
  (forall a, analyzeCoverageFeatures features techType = Ok a ->
     tier_spec (quality a) (feature_count features) (strength a)).
Proof.
  split.
  - intros items -> Hall. destruct items as [|f rest].
    + eexists. reflexivity.
    + rewrite (analyze_array (f :: rest) techType) by (discriminate || exact Hall).
      eexists. reflexivity.
  - intros a Ha. unfold analyzeCoverageFeatures in Ha.
    destruct features as [fs|].
    2:{ inversion Ha; subst. apply tier_spec_zero. }
    destruct (negb (truthy (Some fs)) || length_is_zero fs) eqn:Hz.
    + inversion Ha; subst. cbn [quality strength].
      destruct fs as [| | | |items|]; try apply tier_spec_zero.
      rewrite length_is_zero_array in Hz. cbn in Hz.
      destruct items; [apply tier_spec_zero | discriminate].
    + destruct fs as [| | | |items|]; try discriminate.
      destruct (forEach scanFeature items (int 0, 0%nat)) as [[t c]|e]; [|discriminate].
      cbn in Ha. inversion Ha; subst. cbn [quality strength feature_count].
      apply tier_spec_strengthOf.
Qed.

Lemma C7_strength_tier_witness :
  exists a, analyzeCoverageFeatures (Some (JArr Example.strong_features)) T4G = Ok a /\
            tier_spec (quality a) 3 (strength a) /\ strength a = high.
Proof.
  destruct (C7_strength_tier (Some (JArr Example.strong_features)) T4G) as [Hret Htier].
  destruct (Hret Example.strong_features eq_refl) as [a Ha].
  - repeat constructor; discriminate.
  - exists a. split; [exact Ha|]. split; [exact (Htier a Ha)|].
    vm_compute in Ha. inversion Ha. reflexivity.
Defined.




Example default_table_values :
  map defaultQuality [T2G; T3G; T4G; T5G; UNCAPPED_WIRELESS; FIBRE; FIXED_LTE;
                      LICENSED_WIRELESS; ALL]
  = map int [60; 70; 85; 95; 80; 98; 75; 70; 70]%Z.
Proof. reflexivity. Qed.

(** ** Availability from a feature collection *)

Lemma objects_not_null items : Forall is_object items -> Forall (fun f => f <> JNull) items.
Proof.
  induction 1 as [|f rest Hf _ IH]; constructor; [|exact IH].
  intros ->. exact Hf.
Qed.

Lemma num_gt_length (n : nat) : num_gt (int (Z.of_nat n)) (int 0) = (0 <? n)%nat.
Proof. destruct n; reflexivity. Qed.

(** C5, as the code has it.  When the WMS request resolves to an ok
    response whose JSON body is a feature collection, the direct
    interpreter reports availability exactly when the collection has at
    least one feature; the proxy-client interpreter, which recognises only
    text and binary wrappers, reports no coverage for it. *)
Theorem C5_feature_collection_availability h lat lng techType layerConfig w resp d items :
  net h (tick w) (ReqGeoServerFeatureInfo lat lng layerConfig) = FetchResolves resp ->
  ok resp = true ->
  body resp = Ok d ->
  feature_collection d items ->
  (exists o w',
     MTNApi.checkTechnologyCoverage h lat lng techType layerConfig w = (Ok o, w') /\
     is_available o = (0 <? List.length items)%nat) /\
  ApiClient.parseCoverageResult h (Some d) = Ok false.
Proof.
  intros Hnet Hok Hbody (members & -> & Htype & Hfeat & Hobj).
  split.
  - unfold MTNApi.checkTechnologyCoverage, try_catch, bind, fetch, response_json, lift.
    rewrite Hnet. cbn iota beta. rewrite Hok, Hbody.
    cbn [get_prop member]. rewrite Hfeat. cbn [truthy get_prop member String.eqb Ascii.eqb Bool.eqb].
    cbn [gt_zero andb]. rewrite num_gt_length.
    destruct items as [|f rest].
    + cbn. eexists _, _. split; reflexivity.
    + rewrite (analyze_array (f :: rest) techType)
        by (discriminate || exact (objects_not_null _ Hobj)).
      cbn. eexists _, _. split; reflexivity.
  - unfold ApiClient.parseCoverageResult. cbn [truthy negb get_prop member obind].
    rewrite Htype. reflexivity.
Qed.

Lemma C5_feature_collection_availability_witness :
  (exists o w',
     MTNApi.checkTechnologyCoverage Example.partial Example.jhb_lat Example.jhb_lng T4G
       Example.layer4G Example.fresh_world = (Ok o, w') /\
     is_available o = (0 <? List.length [Example.lte_feature])%nat) /\
  ApiClient.parseCoverageResult Example.partial
    (Some (Example.featureCollection [Example.lte_feature])) = Ok false.
Proof.
  apply (C5_feature_collection_availability Example.partial Example.jhb_lat Example.jhb_lng
           T4G Example.layer4G Example.fresh_world
           {| status := 200; statusText := "OK";
              body := Ok (Example.featureCollection [Example.lte_feature]) |}
           (Example.featureCollection [Example.lte_feature]) [Example.lte_feature]).
  - reflexivity.
  - reflexivity.
  - reflexivity.
  - eexists. repeat split; try reflexivity. repeat constructor.
Defined.

(** C5 as worded fails for the proxy-client interpreter: a feature
    collection with one feature is reported as not available. *)
Lemma C5_counterexample :
  feature_collection (Example.featureCollection [Example.lte_feature]) [Example.lte_feature] /\
  (0 <? List.length [Example.lte_feature])%nat = true /\
  ApiClient.parseCoverageResult Example.offline
    (Some (Example.featureCollection [Example.lte_feature])) = Ok false.
Proof.
  split; [|split; reflexivity].
  eexists. repeat split; try reflexivity. repeat constructor.
Qed.

(** ** Expiry of cache entries *)

(** C8, as the code has it.  A read of a stored entry returns its result
    and leaves the cache alone while [now - created] is below 300000 ms;
    from 300000 ms on the read reports a miss and deletes that entry, and
    only that entry. *)
Theorem C8_cache_expiry h key w e :
  cache w !! key = Some e ->
  ((clock h (tick w) - created e < 300000)%Z ->
     fst (MTNApi.getFromCache h key w) = Ok (Some (data e)) /\
     cache (snd (MTNApi.getFromCache h key w)) = cache w) /\
  ((300000 <= clock h (tick w) - created e)%Z ->
     fst (MTNApi.getFromCache h key w) = Ok None /\
     cache (snd (MTNApi.getFromCache h key w)) = delete key (cache w) /\
     forall k, k <> key -> cache (snd (MTNApi.getFromCache h key w)) !! k = cache w !! k).
Proof.
  intros Hl. split; intros Hage.
  - rewrite (getFromCache_fresh h key w e Hl); [split; reflexivity|].
    apply Z.ltb_lt. exact Hage.
  - rewrite (getFromCache_expired h key w e Hl); [|apply Z.ltb_ge; exact Hage].
    cbn [fst snd cache]. repeat split. intros k Hk. apply lookup_delete_ne. congruence.
Qed.

Lemma C8_cache_expiry_witness :
  ((clock (Example.at_time 299999) 0 - 0 < 300000)%Z ->
     fst (MTNApi.getFromCache (Example.at_time 299999) "k" Example.cached_world)
       = Ok (Some Example.cached_result) /\
     cache (snd (MTNApi.getFromCache (Example.at_time 299999) "k" Example.cached_world))
       = cache Example.cached_world) /\
  ((300000 <= clock (Example.at_time 299999) 0 - 0)%Z ->
     fst (MTNApi.getFromCache (Example.at_time 299999) "k" Example.cached_world) = Ok None /\
     cache (snd (MTNApi.getFromCache (Example.at_time 299999) "k" Example.cached_world))
       = delete "k" (cache Example.cached_world) /\
     forall k, k <> "k" ->
       cache (snd (MTNApi.getFromCache (Example.at_time 299999) "k" Example.cached_world)) !! k
       = cache Example.cached_world !! k).
Proof.
  apply (C8_cache_expiry (Example.at_time 299999) "k" Example.cached_world
           {| data := Example.cached_result; created := 0 |}).
  reflexivity.
Defined.

(** C8 as worded fails on the boundary: when exactly 300000 ms have
    passed, the age does not exceed the lifetime, yet the read is a miss. *)
Lemma C8_counterexample :
  cache Example.cached_world !! "k" = Some {| data := Example.cached_result; created := 0 |} /\
  (clock (Example.at_time 300000) (tick Example.cached_world) - 0 <= MTNApi.cacheTimeout)%Z /\
  fst (MTNApi.getFromCache (Example.at_time 300000) "k" Example.cached_world) = Ok None.
Proof.
  split; [reflexivity|]. split; [vm_compute; discriminate | reflexivity].
Qed.

(** ** Total failure, and the proxy client *)

Section TotalFailure.

Variable h : host.
Hypothesis Hfail : every_source_fails h.












End TotalFailure.

(** *** The proxy client never throws *)

Lemma framed_any_bind {A B} (m : M A) (k : A -> M B) :
  framed m anything -> (forall a, framed (k a) anything) -> framed (bind m k) anything.
Proof. intros Hm Hk. eapply framed_bind; [exact Hm|]. intros a _. apply Hk. Qed.

Lemma framed_any_lift {A} (o : outcome A) : framed (lift o) anything.
Proof. apply framed_lift. intros; exact I. Qed.

Lemma framed_any_ret {A} (a : A) : framed (ret a) anything.
Proof. apply framed_ret. exact I. Qed.


Ltac framed_any :=
  repeat first
    [ apply framed_any_ret
    | apply framed_any_lift
    | apply framed_throw
    | apply framed_fetch
    | apply framed_now
    | apply framed_any_bind; [|intros ?]
    | apply framed_try_catch; [|intros ?]
    | match goal with
      | |- framed (if ?b then _ else _) _ => destruct b
      | |- framed (match ?x with _ => _ end) _ => destruct x
      end ].

Lemma checkSingleTechnology_framed h lat lng technology :
  framed (ApiClient.checkSingleTechnology h lat lng technology) anything.
Proof. unfold ApiClient.checkSingleTechnology, response_json. framed_any. Qed.



(** ** Failing sources *)


Lemma offline_fails : every_source_fails Example.offline.
Proof. intros n r. exact I. Qed.



(** C3, evaluated where it fails.  The 2G request is rejected and the 4G
    layer answers with one feature: the result has [success = true] and an
    observation for 4G, but its [errors] list is empty and the [errors]
    member of the [mtnGeoServer] entry is undefined, so nothing in the
    result refers to 2G. *)
Theorem C3_partial_failure_unreported :
  (forall n, net Example.partial n
               (ReqGeoServerFeatureInfo Example.jhb_lat Example.jhb_lng Example.layer2G)
             = Example.failed_to_fetch) /\
  exists r w' o,
    MTNApi.checkCoverage Example.partial Example.jhb_lat Example.jhb_lng None
      Example.fresh_world = (Ok r, w') /\
    In (EvFetch (ReqGeoServerFeatureInfo Example.jhb_lat Example.jhb_lng Example.layer2G))
       (trace w') /\
    success r = true /\
    coverage r !! "mtnGeoServer"
      = Some (MtnGeoServer true [o] "MTN GeoServer WMS"
                (Example.jhb_lat, Example.jhb_lng) None None) /\
    obs_type o = T4G /\ obs_available o = true /\
    errors r = [].
Proof.
  split; [reflexivity|].
  eexists _, _, _. split; [vm_compute; reflexivity|].
  split; [simpl; tauto|]. split; [reflexivity|].
  split; [vm_compute; reflexivity|]. repeat split.
Qed.

(** The same holds of every run: a successful result never carries an
    error entry, neither in [errors] nor in any coverage entry. *)
Lemma successful_results_carry_no_errors h lat lng addr w :
  reachable w ->
  exists r w',
    MTNApi.checkCoverage h lat lng addr w = (Ok r, w') /\
    (success r = true ->
     errors r = [] /\ forall k e, coverage r !! k = Some e -> source_errors e = []).
Proof.
  intros Hr. apply reachable_cache_ok in Hr.
  destruct (checkCoverage_runs h lat lng addr w) as (r & w' & E & Hs).
  exists r, w'. split; [exact E|].
  apply (run_shape_success_no_errors h lat lng addr w r w' Hr Hs).
Qed.

(** ** The projection *)

(** Over the reals the inverse formula undoes the projection exactly, for
    every latitude strictly between the poles.  The error of the same
    computation on doubles, with the engine's approximations of [tan],
    [log], [exp] and [atan], is outside this model. *)
Lemma mercator_roundtrip_exact (lat lng : R) :
  (-90 < lat < 90)%R ->
  Mercator.inverseMercator (fst (Mercator.convertToSphericalMercator lat lng))
                           (snd (Mercator.convertToSphericalMercator lat lng))
  = (lat, lng).
Proof.
  intros [Hlo Hhi].
  unfold Mercator.inverseMercator, Mercator.convertToSphericalMercator, Mercator.EARTH_RADIUS.
  cbn [fst snd].
  pose proof PI_RGT_0 as Hpi.
  set (u := (lat * PI / 180 / 2 + PI / 4)%R).
  assert (Hu : (0 < u < PI / 2)%R).
  { unfold u. split.
    - assert (-90 * PI < lat * PI)%R by (apply Rmult_lt_compat_r; lra). lra.
    - assert (lat * PI < 90 * PI)%R by (apply Rmult_lt_compat_r; lra). lra. }
  replace (ln (tan u) * 6378137 / 6378137)%R with (ln (tan u)) by field.
  rewrite exp_ln by (apply tan_gt_0; lra).
  rewrite atan_tan by lra.
  f_equal; unfold u; field; lra.
Qed.

(** * Transport calls and the cache across calls *)

Lemma count_fetches_app t1 t2 :
  count_fetches (t1 ++ t2) = (count_fetches t1 + count_fetches t2)%nat.
Proof. induction t1 as [|e rest IH]; simpl; [reflexivity | rewrite IH; lia]. Qed.

Lemma runs_attempts {A} (m : M A) n P : runs m n P -> attempts m n P.
Proof.
  intros Hr w. destruct (Hr w) as (a & w' & E & Hc & Hn & Hp). rewrite E. simpl.
  repeat split; auto. intros b Hb. inversion Hb; subst; exact Hp.
Qed.

Lemma runs_weaken {A} (m : M A) n (P Q : A -> Prop) :
  runs m n P -> (forall a, P a -> Q a) -> runs m n Q.
Proof.
  intros Hm HPQ w. destruct (Hm w) as (a & w' & E & Hc & Hn & Hp). eauto 8.
Qed.

Lemma runs_ret {A} (a : A) (P : A -> Prop) : P a -> runs (ret a) 0 P.
Proof. intros Hp w. exists a, w. repeat split; auto. Qed.

Lemma attempts_ret {A} (a : A) (P : A -> Prop) : P a -> attempts (ret a) 0 P.
Proof. intros Hp. apply runs_attempts, runs_ret, Hp. Qed.

Lemma attempts_throw {A} (e : thrown) (P : A -> Prop) : attempts (throw e) 0 P.
Proof. intros w. simpl. repeat split; auto. discriminate. Qed.

Lemma attempts_lift {A} (o : outcome A) (P : A -> Prop) :
  (forall a, o = Ok a -> P a) -> attempts (lift o) 0 P.
Proof. intros Hp w. simpl. repeat split; auto. Qed.

Lemma attempts_fetch h r : attempts (fetch h r) 1 anything.
Proof.
  intros w. unfold fetch, transport_calls.
  destruct (net h (tick w) r); simpl; rewrite count_fetches_app; simpl;
    repeat split; auto; exact I.
Qed.

(** A continuation that makes no call does not change the count, whether
    or not it is reached. *)
Lemma attempts_bind {A B} (m : M A) (k : A -> M B) n (P : A -> Prop) (Q : B -> Prop) :
  attempts m n P -> (forall a, P a -> attempts (k a) 0 Q) -> attempts (bind m k) n Q.
Proof.
  intros Hm Hk w. unfold bind. destruct (Hm w) as (Hc & Hn & Hp).
  destruct (m w) as [[a|e] w1]; simpl in *.
  - destruct (Hk a (Hp a eq_refl) w1) as (Hc' & Hn' & Hq).
    repeat split; [congruence | lia | exact Hq].
  - repeat split; auto. discriminate.
Qed.

Lemma runs_bind {A B} (m : M A) (k : A -> M B) n1 n2 (P : A -> Prop) (Q : B -> Prop) :
  runs m n1 P -> (forall a, P a -> runs (k a) n2 Q) -> runs (bind m k) (n1 + n2) Q.
Proof.
  intros Hm Hk w. unfold bind. destruct (Hm w) as (a & w1 & E & Hc & Hn & Hp). rewrite E.
  destruct (Hk a Hp w1) as (b & w2 & E2 & Hc2 & Hn2 & Hq). exists b, w2.
  repeat split; [exact E2 | congruence | lia | exact Hq].
Qed.

Lemma runs_try_catch {A} (body : M A) (handler : thrown -> M A) n (P : A -> Prop) :
  attempts body n P -> (forall e, runs (handler e) 0 P) ->
  runs (try_catch body handler) n P.
Proof.
  intros Hb Hh w. unfold try_catch. destruct (Hb w) as (Hc & Hn & Hp).
  destruct (body w) as [[a|e] w1]; simpl in *.
  - exists a, w1. auto.
  - destruct (Hh e w1) as (b & w2 & E & Hc' & Hn' & Hq). exists b, w2.
    repeat split; [exact E | congruence | lia | exact Hq].
Qed.

Lemma runs_settle {A} (m : M A) n (P : A -> Prop) :
  runs m n P -> runs (settle m) n (fun s => exists a, s = Fulfilled a /\ P a).
Proof.
  intros Hm w. unfold settle. destruct (Hm w) as (a & w1 & E & Hc & Hn & Hp). rewrite E.
  exists (Fulfilled a), w1. eauto 6.
Qed.

Lemma runs_forEachM {A S} (f : S -> A -> M S) (I : S -> Prop) n (l : list A) :
  (forall s x, I s -> runs (f s x) n I) ->
  forall s, I s -> runs (forEachM f l s) (List.length l * n) I.
Proof.
  intros Hf. induction l as [|x rest IH]; intros s Hs; simpl.
  - apply runs_ret; exact Hs.
  - eapply runs_bind; [apply Hf; exact Hs|]. intros s' Hs'. apply IH; exact Hs'.
Qed.

Ltac one_fetch :=
  apply runs_try_catch; [|intros ?; apply runs_ret; exact I];
  eapply attempts_bind; [apply attempts_fetch|]; intros ? _;
  repeat first
    [ apply attempts_ret; exact I
    | apply attempts_lift; intros; exact I
    | eapply attempts_bind with (P := anything); [|intros ? _]
    | match goal with
      | |- attempts (if ?b then _ else _) _ _ => destruct b
      | |- attempts (response_json _) _ _ => apply attempts_lift; intros; exact I
      end ].

Section Counting.

Variable h : host.

(** Each probe of a layer makes exactly one transport call. *)
Lemma checkTechnologyCoverage_one_call lat lng techType layerConfig :
  runs (MTNApi.checkTechnologyCoverage h lat lng techType layerConfig) 1 anything.
Proof. unfold MTNApi.checkTechnologyCoverage. one_fetch. Qed.

Lemma probeLayer_one_call lat lng acc entry :
  runs (MTNApi.probeLayer h lat lng acc entry) 1 anything.
Proof.
  destruct acc as [av errs], entry as [techType layerConfig]. intros w.
  unfold MTNApi.probeLayer, try_catch, bind.
  destruct (checkTechnologyCoverage_one_call lat lng techType layerConfig w)
    as (r & w1 & E & Hc & Hn & _).
  rewrite E. destruct r; eexists _, _; (split; [reflexivity|]); repeat split; auto.
Qed.

(** The primary source makes nine transport calls, one per layer. *)
Lemma getRealMTNCoverage_nine_calls lat lng addr :
  runs (MTNApi.getRealMTNCoverage h lat lng addr) 9 anything.
Proof.
  unfold MTNApi.getRealMTNCoverage.
  apply runs_try_catch; [|intros e; apply runs_ret; exact I].
  apply runs_attempts.
  change 9%nat with (List.length MTNApi.technologyLayers * 1 + 0)%nat.
  eapply runs_bind.
  - apply (runs_forEachM (MTNApi.probeLayer h lat lng) anything).
    + intros s x _. apply probeLayer_one_call.
    + exact I.
  - intros [av errs] _. destruct av; apply runs_ret; exact I.
Qed.

Lemma tryPublicCoverageQuery_one_call lat lng :
  runs (MTNApi.tryPublicCoverageQuery h lat lng) 1 anything.
Proof. unfold MTNApi.tryPublicCoverageQuery. one_fetch. Qed.

Lemma tryCoverageApiPoint_one_call lat lng :
  runs (MTNApi.tryCoverageApiPoint h lat lng) 1 anything.
Proof. unfold MTNApi.tryCoverageApiPoint. one_fetch. Qed.

Lemma tryWMSFeatureInfo_one_call lat lng :
  runs (MTNApi.tryWMSFeatureInfo h lat lng) 1 anything.
Proof. unfold MTNApi.tryWMSFeatureInfo. one_fetch. Qed.

Lemma tryAlternativeEndpoint_one_call lat lng :
  runs (MTNApi.tryAlternativeEndpoint h lat lng) 1 anything.
Proof. unfold MTNApi.tryAlternativeEndpoint. one_fetch. Qed.

End Counting.

Lemma quiet_runs {A} (m : M A) n (P Q : A -> Prop) :
  quiet m P -> runs m n Q -> runs m n (fun a => P a /\ Q a).
Proof.
  intros Hq Hr w. destruct (Hq w) as (a & w1 & E & _ & Hp).
  destruct (Hr w) as (a' & w1' & E' & Hc & Hn & Hq').
  rewrite E in E'. inversion E'; subst. exists a', w1'. auto.
Qed.

Ltac fallback_key :=
  apply quiet_try_catch; [|intros e; apply quiet_ret; discriminate];
  eapply framed_bind; [apply framed_fetch|]; intros response _;
  destruct (ok response); [|apply framed_ret; discriminate];
  eapply framed_bind; [apply framed_lift; intros; exact I|]; intros d _;
  try (eapply framed_bind; [apply framed_lift; intros; exact I|]; intros features _);
  apply framed_ret; intros v Hv; inversion Hv; apply lookup_singleton_ne; discriminate.

Lemma tryPublicCoverageQuery_key h lat lng :
  quiet (MTNApi.tryPublicCoverageQuery h lat lng) no_primary.
Proof. unfold MTNApi.tryPublicCoverageQuery. fallback_key. Qed.

Lemma tryCoverageApiPoint_key h lat lng :
  quiet (MTNApi.tryCoverageApiPoint h lat lng) no_primary.
Proof. unfold MTNApi.tryCoverageApiPoint. fallback_key. Qed.

Lemma tryWMSFeatureInfo_key h lat lng :
  quiet (MTNApi.tryWMSFeatureInfo h lat lng) no_primary.
Proof. unfold MTNApi.tryWMSFeatureInfo. fallback_key. Qed.

Lemma tryAlternativeEndpoint_key h lat lng :
  quiet (MTNApi.tryAlternativeEndpoint h lat lng) no_primary.
Proof. unfold MTNApi.tryAlternativeEndpoint. fallback_key. Qed.

Lemma processResponse_no_primary cov errs i a :
  cov !! "mtnGeoServer" = None -> no_primary a ->
  exists cov', MTNApi.processResponse (cov, errs) (i, Fulfilled a) = (cov', errs) /\
               cov' !! "mtnGeoServer" = None.
Proof.
  intros Hc Ha. destruct a as [v|]; simpl.
  - exists (v ∪ cov). split; [reflexivity|].
    apply lookup_union_None. split; [apply Ha; reflexivity | exact Hc].
  - exists cov. auto.
Qed.

Lemma getFromCache_no_call h key w :
  transport_calls (snd (MTNApi.getFromCache h key w)) = transport_calls w.
Proof.
  unfold transport_calls. destruct (cache w !! key) as [e|] eqn:Hl.
  - destruct (clock h (tick w) - created e <? MTNApi.cacheTimeout)%Z eqn:Ht.
    + rewrite (getFromCache_fresh h key w e Hl Ht). simpl.
      rewrite count_fetches_app. simpl. lia.
    + rewrite (getFromCache_expired h key w e Hl Ht). simpl.
      rewrite !count_fetches_app. simpl. lia.
  - rewrite (getFromCache_absent h key w Hl). simpl.
    rewrite !count_fetches_app. simpl. lia.
Qed.

(** X3. [checkCoverage] makes no transport call when the coordinates are
    rejected or the cache holds a fresh entry; otherwise it makes nine calls
    when the primary source finds coverage, and thirteen (nine and the four
    fallback endpoints) when it does not. *)
Theorem checkCoverage_transport_calls h lat lng addr w :
  exists r w',
    MTNApi.checkCoverage h lat lng addr w = (Ok r, w') /\
    (((MTNApi.isInSouthAfrica lat lng = false \/
       fresh_entry h (MTNApi.cacheKey h lat lng) w <> None) /\
      transport_calls w' = transport_calls w)
     \/ (MTNApi.isInSouthAfrica lat lng = true /\
         fresh_entry h (MTNApi.cacheKey h lat lng) w = None /\
         is_Some (coverage r !! "mtnGeoServer") /\
         transport_calls w' = (transport_calls w + 9)%nat)
     \/ (MTNApi.isInSouthAfrica lat lng = true /\
         fresh_entry h (MTNApi.cacheKey h lat lng) w = None /\
         coverage r !! "mtnGeoServer" = None /\
         transport_calls w' = (transport_calls w + 13)%nat)).
Proof.
  unfold MTNApi.checkCoverage.
  destruct (MTNApi.isInSouthAfrica lat lng) eqn:Hin; cbn [negb].
  2:{ eexists _, _. split; [reflexivity|]. left. split; [left; reflexivity | reflexivity]. }
  set (key := MTNApi.cacheKey h lat lng).
  pose proof (getFromCache_no_call h key w) as Hn0.
  destruct (fresh_entry h key w) as [e|] eqn:Hf.
  { destruct (getFromCache_hit h key w e Hf) as (w1 & E & Hc & Hl).
    rewrite E in Hn0. rewrite (bind_ok _ _ _ _ _ E). eexists _, _. split; [reflexivity|].
    left. split; [right; discriminate | exact Hn0]. }
  destruct (getFromCache_miss h key w Hf) as (w1 & E & Hc).
  rewrite E in Hn0. simpl in Hn0.
  rewrite (bind_ok _ _ _ _ _ E). cbv beta iota.
  rewrite (bind_ok _ _ w1 (clock h (tick w1)) (next_tick w1) eq_refl).
  destruct (quiet_runs _ _ _ _ (getRealMTNCoverage_quiet h lat lng addr)
              (getRealMTNCoverage_nine_calls h lat lng addr) (next_tick w1))
    as (rc & w2 & E2 & _ & Hn2 & Hrc & _).
  change (transport_calls (next_tick w1)) with (transport_calls w1) in Hn2.
  rewrite (bind_ok _ _ _ _ _ E2).
  destruct Hrc as [-> | (types & Hne & ->)].
  - destruct (runs_settle _ _ _ (quiet_runs _ _ _ _ (tryPublicCoverageQuery_key h lat lng)
                (tryPublicCoverageQuery_one_call h lat lng)) w2)
      as (r0 & w3 & E3 & _ & Hn3 & a0 & -> & Ha0 & _).
    rewrite (bind_ok _ _ _ _ _ E3).
    destruct (runs_settle _ _ _ (quiet_runs _ _ _ _ (tryCoverageApiPoint_key h lat lng)
                (tryCoverageApiPoint_one_call h lat lng)) w3)
      as (r1 & w4 & E4 & _ & Hn4 & a1 & -> & Ha1 & _).
    rewrite (bind_ok _ _ _ _ _ E4).
    destruct (runs_settle _ _ _ (quiet_runs _ _ _ _ (tryWMSFeatureInfo_key h lat lng)
                (tryWMSFeatureInfo_one_call h lat lng)) w4)
      as (r2 & w5 & E5 & _ & Hn5 & a2 & -> & Ha2 & _).
    rewrite (bind_ok _ _ _ _ _ E5).
    destruct (runs_settle _ _ _ (quiet_runs _ _ _ _ (tryAlternativeEndpoint_key h lat lng)
                (tryAlternativeEndpoint_one_call h lat lng)) w5)
      as (r3 & w6 & E6 & _ & Hn6 & a3 & -> & Ha3 & _).
    rewrite (bind_ok _ _ _ _ _ E6).
    cbn [fold_left].
    destruct (processResponse_no_primary ∅ [] 0%nat a0 (lookup_empty _) Ha0) as (c0 & -> & Hk0).
    destruct (processResponse_no_primary c0 [] 1%nat a1 Hk0 Ha1) as (c1 & -> & Hk1).
    destruct (processResponse_no_primary c1 [] 2%nat a2 Hk1 Ha2) as (c2 & -> & Hk2).
    destruct (processResponse_no_primary c2 [] 3%nat a3 Hk2 Ha3) as (c3 & -> & Hk3).
    cbn [success].
    assert (Hn : transport_calls w6 = (transport_calls w + 13)%nat) by lia.
    destruct (0 <? size c3)%nat.
    + eexists _, _. split; [unfold bind; rewrite addToCache_eq; reflexivity|].
      right; right. repeat split; auto.
      unfold transport_calls in *. simpl. rewrite count_fetches_app. simpl. lia.
    + eexists _, _. split; [reflexivity|]. right; right. repeat split; auto.
  - eexists _, _. split; [unfold bind; rewrite addToCache_eq; reflexivity|].
    right; left. split; [reflexivity|]. split; [reflexivity|]. split.
    + cbn [coverage]. rewrite lookup_singleton_eq. eexists; reflexivity.
    + unfold transport_calls in *. simpl. rewrite count_fetches_app. simpl. lia.
Qed.

(** X1. After a successful lookup the result is in the cache under the key
    of the coordinates, and while that entry is younger than 300000 ms any
    call whose coordinates are in bounds and round to the same key returns
    that very result (its coordinates, address and timestamp included, the
    new address being ignored), makes no transport call and leaves the
    cache as it is. *)
Theorem checkCoverage_repeat_served_from_cache h lat lng addr w r w' :
  MTNApi.checkCoverage h lat lng addr w = (Ok r, w') ->
  success r = true ->
  exists e,
    cache w' !! MTNApi.cacheKey h lat lng = Some e /\ data e = r /\
    forall h2 lat2 lng2 addr2,
      MTNApi.isInSouthAfrica lat2 lng2 = true ->
      MTNApi.cacheKey h2 lat2 lng2 = MTNApi.cacheKey h lat lng ->
      (clock h2 (tick w') - created e < 300000)%Z ->
      exists w'',
        MTNApi.checkCoverage h2 lat2 lng2 addr2 w' = (Ok r, w'') /\
        transport_calls w'' = transport_calls w' /\
        cache w'' = cache w'.
Proof.
  intros E Hs.
  destruct (checkCoverage_runs h lat lng addr w) as (r0 & w0 & E0 & Hshape).
  rewrite E in E0. inversion E0; subst r0 w0. clear E0.
  assert (Hentry : exists e, cache w' !! MTNApi.cacheKey h lat lng = Some e /\ data e = r).
  { destruct Hshape as [H | [H | [H | H]]].
    - destruct H as (_ & Hf & _). congruence.
    - destruct H as (_ & e & _ & Hl & -> & ->). eauto.
    - destruct H as (_ & _ & _ & _ & _ & _ & t & ->).
      eexists. rewrite lookup_insert_eq. split; reflexivity.
    - destruct H as (_ & _ & Hf & _). congruence. }
  destruct Hentry as (e & Hl & He). exists e. repeat split; auto.
  intros h2 lat2 lng2 addr2 Hin Hkey Hage.
  unfold MTNApi.checkCoverage. rewrite Hin. cbn [negb]. rewrite Hkey.
  apply Z.ltb_lt in Hage.
  rewrite (bind_ok _ _ _ _ _ (getFromCache_fresh h2 _ w' e Hl Hage)).
  eexists. split; [rewrite He; reflexivity|]. split; [|reflexivity].
  unfold transport_calls. simpl. rewrite count_fetches_app. simpl. lia.
Qed.

Lemma partial_run_eq :
  MTNApi.checkCoverage Example.partial Example.jhb_lat Example.jhb_lng None Example.fresh_world
  = (Ok partial_result, snd partial_run).
Proof. vm_compute. reflexivity. Qed.

Lemma checkCoverage_repeat_served_from_cache_witness :
  exists e,
    cache (snd partial_run) !! MTNApi.cacheKey Example.partial Example.jhb_lat Example.jhb_lng
      = Some e /\ data e = partial_result /\
    forall h2 lat2 lng2 addr2,
      MTNApi.isInSouthAfrica lat2 lng2 = true ->
      MTNApi.cacheKey h2 lat2 lng2 = MTNApi.cacheKey Example.partial Example.jhb_lat Example.jhb_lng ->
      (clock h2 (tick (snd partial_run)) - created e < 300000)%Z ->
      exists w'',
        MTNApi.checkCoverage h2 lat2 lng2 addr2 (snd partial_run) = (Ok partial_result, w'') /\
        transport_calls w'' = transport_calls (snd partial_run) /\
        cache w'' = cache (snd partial_run).
Proof.
  apply (checkCoverage_repeat_served_from_cache Example.partial Example.jhb_lat Example.jhb_lng
           None Example.fresh_world partial_result (snd partial_run)).
  - exact partial_run_eq.
  - vm_compute. reflexivity.
Defined.

(** X2. A lookup in bounds that ends without success is not cached: after
    it the key of the coordinates has no entry, and no other entry has
    changed. *)
Theorem failed_lookup_not_cached h lat lng addr w :
  reachable w ->
  MTNApi.isInSouthAfrica lat lng = true ->
  exists r w',
    MTNApi.checkCoverage h lat lng addr w = (Ok r, w') /\
    (success r = false ->
     cache w' !! MTNApi.cacheKey h lat lng = None /\
     forall k, k <> MTNApi.cacheKey h lat lng -> cache w' !! k = cache w !! k).
Proof.
  intros Hr Hin. apply reachable_cache_ok in Hr.
  destruct (checkCoverage_runs h lat lng addr w) as (r & w' & E & Hshape).
  exists r, w'. split; [exact E|]. intros Hfalse.
  destruct Hshape as [H | [H | [H | H]]].
  - destruct H as (Hout & _). congruence.
  - destruct H as (_ & e & _ & Hl & -> & _).
    destruct (Hr _ _ Hl) as (Hs & _). congruence.
  - destruct H as (_ & _ & Hs & _). congruence.
  - destruct H as (_ & _ & _ & _ & _ & ->). split.
    + apply lookup_delete_eq.
    + intros k Hk. apply lookup_delete_ne. congruence.
Qed.

Lemma failed_lookup_not_cached_witness :
  exists r w',
    MTNApi.checkCoverage Example.offline Example.jhb_lat Example.jhb_lng None
      Example.fresh_world = (Ok r, w') /\
    (success r = false ->
     cache w' !! MTNApi.cacheKey Example.offline Example.jhb_lat Example.jhb_lng = None /\
     forall k, k <> MTNApi.cacheKey Example.offline Example.jhb_lat Example.jhb_lng ->
               cache w' !! k = cache Example.fresh_world !! k).
Proof.
  apply (failed_lookup_not_cached Example.offline Example.jhb_lat Example.jhb_lng None
           Example.fresh_world).
  - apply reach_init.
  - reflexivity.
Defined.

(** X4. The [errors] list of a result is empty for coordinates in bounds
    and holds exactly the validation error otherwise: no failure of a
    source or of a technology is ever listed. *)
Theorem errors_only_report_validation h lat lng addr w :
  reachable w ->
  exists r w',
    MTNApi.checkCoverage h lat lng addr w = (Ok r, w') /\
    errors r = if MTNApi.isInSouthAfrica lat lng then [] else [validationError].
Proof.
  intros Hr. apply reachable_cache_ok in Hr.
  destruct (checkCoverage_runs h lat lng addr w) as (r & w' & E & Hshape).
  exists r, w'. split; [exact E|].
  destruct Hshape as [H | [H | [H | H]]].
  - destruct H as (-> & _ & _ & _ & He & _). exact He.
  - destruct H as (-> & e & _ & Hl & -> & _). destruct (Hr _ _ Hl) as (_ & _ & He & _). exact He.
  - destruct H as (-> & _ & _ & _ & He & _). exact He.
  - destruct H as (-> & _ & _ & _ & He & _). exact He.
Qed.

Lemma errors_only_report_validation_witness :
  exists r w',
    MTNApi.checkCoverage Example.offline Example.jhb_lat Example.jhb_lng None
      Example.fresh_world = (Ok r, w') /\
    errors r = if MTNApi.isInSouthAfrica Example.jhb_lat Example.jhb_lng
               then [] else [validationError].
Proof.
  apply (errors_only_report_validation Example.offline Example.jhb_lat Example.jhb_lng None
           Example.fresh_world).
  apply reach_init.
Defined.

(** X5. What [addToCache] stores under a key, [getFromCache] returns for
    that key, whatever was stored there before, as long as the clock read
    at the lookup is less than 300000 ms after the one read at the store;
    from 300000 ms on the lookup misses.  Storing changes no other key. *)
Theorem cache_store_then_lookup h h2 key d w :
  let w1 := snd (MTNApi.addToCache h key d w) in
  ((clock h2 (tick w1) - clock h (tick w) < 300000)%Z ->
     fst (MTNApi.getFromCache h2 key w1) = Ok (Some d)) /\
  ((300000 <= clock h2 (tick w1) - clock h (tick w))%Z ->
     fst (MTNApi.getFromCache h2 key w1) = Ok None) /\
  (forall k, k <> key -> cache w1 !! k = cache w !! k).
Proof.
  cbv zeta. rewrite addToCache_eq. cbn [snd].
  set (w1 := {| cache := <[key := {| data := d; created := clock h (tick w) |}]> (cache w);
                tick := S (tick w); trace := trace w ++ [EvCacheSet key] |}).
  assert (Hl : cache w1 !! key = Some {| data := d; created := clock h (tick w) |})
    by apply lookup_insert_eq.
  split; [|split].
  - intros Hage. apply Z.ltb_lt in Hage.
    rewrite (getFromCache_fresh h2 key w1 _ Hl Hage). reflexivity.
  - intros Hage. apply Z.ltb_ge in Hage.
    rewrite (getFromCache_expired h2 key w1 _ Hl Hage). reflexivity.
  - intros k Hk. subst w1. cbn [cache]. apply lookup_insert_ne. congruence.
Qed.

Lemma cache_store_then_lookup_witness :
  fst (MTNApi.getFromCache (Example.at_time 299999) "k"
         (snd (MTNApi.addToCache (Example.at_time 0) "k" Example.cached_result
                 Example.fresh_world)))
  = Ok (Some Example.cached_result).
Proof.
  destruct (cache_store_then_lookup (Example.at_time 0) (Example.at_time 299999) "k"
              Example.cached_result Example.fresh_world) as (Hfresh & _ & _).
  apply Hfresh. vm_compute. reflexivity.
Defined.

(** * Provinces *)

Lemma firstProvince_cons row rest lat lng :
  MTNApi.firstProvince (row :: rest) lat lng
  = if inside row lat lng then row_name row else MTNApi.firstProvince rest lat lng.
Proof. destruct row as [[name [lat0 lat1]] [lng0 lng1]]. reflexivity. Qed.

Lemma firstProvince_first_match table lat lng :
  Forall (fun row => row_name row <> "Unknown") table ->
  (MTNApi.firstProvince table lat lng = "Unknown" /\
   Forall (fun row => inside row lat lng = false) table)
  \/ (exists before row after,
        table = (before ++ row :: after)%list /\
        Forall (fun earlier => inside earlier lat lng = false) before /\
        inside row lat lng = true /\
        MTNApi.firstProvince table lat lng = row_name row).
Proof.
  induction table as [|row rest IH]; intros Hnames.
  - left. split; [reflexivity | constructor].
  - inversion Hnames as [|? ? Hrow Hrest]; subst. rewrite firstProvince_cons.
    destruct (inside row lat lng) eqn:Hin.
    + right. exists [], row, rest. repeat split; auto.
    + destruct (IH Hrest) as [[Hu Hall] | (before & r & after & -> & Hb & Hr & Hf)].
      * left. split; [exact Hu | constructor; assumption].
      * right. exists (row :: before), r, after. repeat split; auto.
Qed.

Lemma province_names : Forall (fun row => row_name row <> "Unknown") MTNApi.provinces.
Proof. repeat constructor; discriminate. Qed.

(** X7. [getProvince] answers with the first row of its table whose
    envelope contains the point, so that where envelopes overlap the row
    listed first wins; it answers "Unknown" exactly when no envelope
    contains the point. *)
Theorem getProvince_first_match lat lng :
  (MTNApi.getProvince lat lng = "Unknown" <->
   Forall (fun row => inside row lat lng = false) MTNApi.provinces) /\
  (MTNApi.getProvince lat lng <> "Unknown" ->
   exists before row after,
     MTNApi.provinces = (before ++ row :: after)%list /\
     Forall (fun earlier => inside earlier lat lng = false) before /\
     inside row lat lng = true /\
     MTNApi.getProvince lat lng = row_name row).
Proof.
  unfold MTNApi.getProvince.
  destruct (firstProvince_first_match MTNApi.provinces lat lng province_names)
    as [[Hu Hall] | (before & row & after & Ht & Hb & Hr & Hf)].
  - split; [split; auto|]. intros Hne. contradiction.
  - assert (Hname : row_name row <> "Unknown").
    { pose proof province_names as Hn. rewrite Ht in Hn.
      apply Forall_app in Hn. destruct Hn as [_ Hn]. inversion Hn; assumption. }
    split.
    + split; [intros Hu; congruence|]. intros Hall. rewrite Ht in Hall.
      apply Forall_app in Hall. destruct Hall as [_ Hall]. inversion Hall; congruence.
    + intros _. exists before, row, after. auto.
Qed.

Lemma getProvince_first_match_witness :
  exists before row after,
    MTNApi.provinces = (before ++ row :: after)%list /\
    Forall (fun earlier => inside earlier Example.jhb_lat Example.jhb_lng = false) before /\
    inside row Example.jhb_lat Example.jhb_lng = true /\
    MTNApi.getProvince Example.jhb_lat Example.jhb_lng = row_name row.
Proof.
  apply (getProvince_first_match Example.jhb_lat Example.jhb_lng).
  vm_compute. discriminate.
Defined.

Lemma num_ge_trans a b c : num_ge a b = true -> num_ge b c = true -> num_ge a c = true.
Proof.
  destruct a as [p| | |], b as [q| | |], c as [r| | |]; try discriminate; try reflexivity.
  rewrite !num_ge_Fin. intros. lra.
Qed.

Lemma num_le_trans a b c : num_le a b = true -> num_le b c = true -> num_le a c = true.
Proof.
  destruct a as [p| | |], b as [q| | |], c as [r| | |]; try discriminate; try reflexivity.
  rewrite !num_le_Fin. intros. lra.
Qed.

(** Every province envelope lies within the country envelope. *)
Lemma provinces_within_country :
  Forall (fun row =>
            let '(_, (lat0, lat1), (lng0, lng1)) := row in
            num_ge lat0 (MTNApi.south MTNApi.saBounds) = true /\
            num_le lat1 (MTNApi.north MTNApi.saBounds) = true /\
            num_ge lng0 (MTNApi.west MTNApi.saBounds) = true /\
            num_le lng1 (MTNApi.east MTNApi.saBounds) = true)
         MTNApi.provinces.
Proof. repeat constructor. Qed.

(** X6. Coordinates that [getProvince] places in a province pass the
    country check; so coordinates that [checkCoverage] rejects have no
    province, in agreement with the "Unknown" of the rejected result. *)
Theorem province_implies_in_country lat lng :
  MTNApi.getProvince lat lng <> "Unknown" -> MTNApi.isInSouthAfrica lat lng = true.
Proof.
  intros Hne. unfold MTNApi.getProvince in Hne.
  destruct (firstProvince_first_match MTNApi.provinces lat lng province_names)
    as [[Hu _] | (before & row & after & Ht & _ & Hin & _)]; [contradiction|].
  pose proof provinces_within_country as Hw. rewrite Ht in Hw.
  apply Forall_app in Hw. destruct Hw as [_ Hw]. inversion Hw as [|? ? Hrow _]; subst.
  destruct row as [[name [lat0 lat1]] [lng0 lng1]].
  destruct Hrow as (H1 & H2 & H3 & H4). unfold inside in Hin.
  apply andb_prop in Hin. destruct Hin as [Hin Hd].
  apply andb_prop in Hin. destruct Hin as [Hin Hc].
  apply andb_prop in Hin. destruct Hin as [Ha Hb].
  unfold MTNApi.isInSouthAfrica.
  rewrite (num_ge_trans _ _ _ Ha H1), (num_le_trans _ _ _ Hb H2),
          (num_ge_trans _ _ _ Hc H3), (num_le_trans _ _ _ Hd H4).
  reflexivity.
Qed.

Lemma province_implies_in_country_witness :
  MTNApi.isInSouthAfrica Example.jhb_lat Example.jhb_lng = true.
Proof.
  apply (province_implies_in_country Example.jhb_lat Example.jhb_lng).
  vm_compute. discriminate.
Defined.

(** * The range of the score *)

Lemma num_compare_int a b : num_compare (int a) (int b) = Some (a ?= b)%Z.
Proof. unfold int, num_compare, Qcompare. simpl. rewrite !Z.mul_1_r. reflexivity. Qed.

Lemma clamp_int z : clamp (int z) = int (Z.min 100 (Z.max 0 z)).
Proof.
  unfold clamp, Math_max. rewrite num_compare_int.
  destruct (Z.compare_spec 0 z) as [E|L|G].
  - subst z. reflexivity.
  - unfold Math_min. rewrite num_compare_int.
    destruct (Z.compare_spec 100 z); f_equal; lia.
  - unfold Math_min. rewrite num_compare_int. simpl. f_equal. lia.
Qed.

Lemma score_clamp_int z : score (clamp (int z)).
Proof. rewrite clamp_int. eexists. split; [reflexivity | lia]. Qed.

Lemma summable_add t v : summable t -> num_gt v (int 0) = true -> summable (num_add t v).
Proof.
  intros [-> | [q ->]] Hv; destruct v as [p| | |]; try discriminate; simpl;
    unfold summable; eauto.
Qed.

Lemma scanProps_summable props : forall l t c,
  summable t ->
  summable (fst (fold_left
    (fun '(totalQuality, qualityCount) prop =>
       match member props prop with
       | Some (JNum v) =>
           if num_gt v (int 0) then (num_add totalQuality v, S qualityCount)
           else (totalQuality, qualityCount)
       | _ => (totalQuality, qualityCount)
       end) l (t, c))).
Proof.
  induction l as [|prop rest IH]; intros t c Ht; simpl; [exact Ht|].
  destruct (member props prop) as [[| |v| | |]|]; try (apply IH; exact Ht).
  destruct (num_gt v (int 0)) eqn:Hv; apply IH; [apply summable_add|]; assumption.
Qed.

Lemma scanFeature_summable acc feature acc' :
  scanFeature acc feature = Ok acc' -> summable (fst acc) -> summable (fst acc').
Proof.
  destruct acc as [t c]. unfold scanFeature, get_prop.
  destruct feature; cbn [obind member]; try discriminate;
    try (intros H; inversion H; subst; auto; fail).
  destruct (assoc members "properties") as [p|]; [|intros H; inversion H; subst; auto].
  destruct (truthy (Some p)); intros H Ht; inversion H; subst; [|exact Ht].
  apply scanProps_summable. exact Ht.
Qed.

Lemma forEach_summable items : forall acc acc',
  forEach scanFeature items acc = Ok acc' -> summable (fst acc) -> summable (fst acc').
Proof.
  induction items as [|f rest IH]; intros acc acc' H Ht; simpl in H.
  - inversion H; subst; exact Ht.
  - destruct (scanFeature acc f) as [acc1|e] eqn:E; [|discriminate]. simpl in H.
    eapply IH; [exact H|]. eapply scanFeature_summable; eassumption.
Qed.

(** The quality of an analysis is a score. *)
Lemma analyze_quality_score features techType a :
  analyzeCoverageFeatures features techType = Ok a -> score (quality a).
Proof.
  unfold analyzeCoverageFeatures. intros Ha.
  assert (Hzero : score (int 0)) by (exists 0%Z; split; [reflexivity | lia]).
  destruct features as [fs|]; [|inversion Ha; subst; exact Hzero].
  destruct (negb (truthy (Some fs)) || length_is_zero fs); [inversion Ha; subst; exact Hzero|].
  destruct fs as [| | | |items|]; try discriminate.
  destruct (forEach scanFeature items (int 0, 0%nat)) as [[t c]|e] eqn:E; [|discriminate].
  cbn [obind] in Ha. inversion Ha; subst. cbn [quality].
  fold (clamp (if (0 <? c)%nat then Math_round (num_div_count t c) else defaultQuality techType)).
  destruct (0 <? c)%nat eqn:Hc.
  - assert (Ht : summable t).
    { apply (forEach_summable items (int 0, 0%nat) (t, c) E). right. eexists. reflexivity. }
    destruct c as [|c]; [discriminate|].
    destruct Ht as [-> | [q ->]].
    + exists 100%Z. split; [reflexivity | lia].
    + apply score_clamp_int.
  - apply score_clamp_int.
Qed.

(** X8. Whatever the features, a score that [analyzeCoverageFeatures]
    returns is an integer between 0 and 100. *)
Theorem quality_is_a_score features techType a :
  analyzeCoverageFeatures features techType = Ok a -> score (quality a).
Proof. exact (analyze_quality_score features techType a). Qed.

Lemma quality_is_a_score_witness :
  score (quality {| strength := high; quality := int 90 |}).
Proof.
  apply (quality_is_a_score (Some (JArr Example.strong_features)) T4G).
  vm_compute. reflexivity.
Defined.

(** * The observations of the primary source *)

Lemma analyze_tier features techType a :
  analyzeCoverageFeatures features techType = Ok a ->
  tier_spec (quality a) (feature_count features) (strength a).
Proof.
  intros Ha. unfold analyzeCoverageFeatures in Ha.
  destruct features as [fs|]; [|inversion Ha; subst; apply tier_spec_zero].
  destruct (negb (truthy (Some fs)) || length_is_zero fs) eqn:Hz.
  - inversion Ha; subst. cbn [quality strength].
    destruct fs as [| | | |items|]; try apply tier_spec_zero.
    rewrite length_is_zero_array in Hz. cbn in Hz.
    destruct items; [apply tier_spec_zero | discriminate].
  - destruct fs as [| | | |items|]; try discriminate.
    destruct (forEach scanFeature items (int 0, 0%nat)) as [[t c]|e]; [|discriminate].
    cbn in Ha. inversion Ha; subst. cbn [quality strength feature_count].
    apply tier_spec_strengthOf.
Qed.

(** Coverage is only reported for a non-empty array of features. *)
Lemma coverage_needs_features h features len techType a :
  (if truthy features then get_prop features "length" else Ok None) = Ok len ->
  truthy features && gt_zero h len = true ->
  analyzeCoverageFeatures features techType = Ok a ->
  exists items, features = Some (JArr items) /\ items <> [].
Proof.
  intros Hlen Hcov Ha. apply andb_prop in Hcov. destruct Hcov as [Ht Hgt].
  rewrite Ht in Hlen. unfold analyzeCoverageFeatures in Ha.
  destruct features as [fs|]; [|discriminate]. rewrite Ht in Ha. cbn [negb orb] in Ha.
  destruct fs as [| | | |items|members]; try discriminate;
    try (destruct (length_is_zero _) eqn:Hz; [|discriminate]).
  - (* a string *)
    cbn in Hlen. inversion Hlen; subst len. unfold length_is_zero in Hz. cbn in Hz.
    cbn in Hgt. unfold num_gt, int in Hgt. cbn [num_compare] in Hgt.
    apply Qeq_bool_iff in Hz. apply Qeq_alt in Hz.
    change (inject_Z 0) with 0%Q in Hgt. rewrite Hz in Hgt. discriminate.
  - (* an array *)
    exists items. split; [reflexivity|]. intros ->.
    cbn in Hlen. inversion Hlen; subst len. discriminate.
  - (* an object whose length is zero *)
    cbn in Hlen. inversion Hlen; subst len. unfold length_is_zero in Hz. cbn [member] in Hz.
    destruct (assoc members "length") as [[| |[q| | |]| | |]|]; try discriminate.
    cbn in Hgt. unfold num_gt, int in Hgt. cbn [num_compare] in Hgt.
    apply Qeq_bool_iff in Hz. apply Qeq_alt in Hz.
    change (inject_Z 0) with 0%Q in Hgt. rewrite Hz in Hgt. discriminate.
Qed.

Lemma quiet_and {A} (m : M A) (P Q : A -> Prop) :
  quiet m P -> quiet m Q -> quiet m (fun a => P a /\ Q a).
Proof.
  intros Hp Hq w. destruct (Hp w) as (a & w1 & E & Hc & HP).
  destruct (Hq w) as (a' & w1' & E' & _ & HQ).
  rewrite E in E'. inversion E'; subst. exists a', w1'. auto.
Qed.

Section Observations.

Variable h : host.

Lemma checkTechnologyCoverage_observation lat lng techType layerConfig :
  quiet (MTNApi.checkTechnologyCoverage h lat lng techType layerConfig)
        (fun r => forall o, r = Some o -> obs_type o = techType /\ observation_ok o).
Proof.
  unfold MTNApi.checkTechnologyCoverage.
  apply quiet_try_catch; [|intros e; apply quiet_ret; discriminate].
  eapply framed_bind; [apply framed_fetch|]. intros response _.
  destruct (ok response); [|apply framed_ret; discriminate].
  eapply framed_bind; [apply framed_lift; intros; exact I|]. intros d _.
  eapply framed_bind; [apply framed_lift; intros; exact I|]. intros features _.
  eapply framed_bind.
  { apply (framed_lift _ (fun len =>
      (if truthy features then get_prop features "length" else Ok None) = Ok len)). auto. }
  intros len Hlen.
  destruct (truthy features && gt_zero h len) eqn:Hcov; [|apply framed_ret; discriminate].
  eapply framed_bind.
  { apply (framed_lift _ (fun a => analyzeCoverageFeatures features techType = Ok a)). auto. }
  intros a Ha. apply framed_ret. intros o Ho. inversion Ho; subst o. cbn.
  split; [reflexivity|]. unfold observation_ok.
  cbn [obs_available infrastructureType obs_type obs_features obs_quality obs_strength].
  split; [reflexivity|]. split; [reflexivity|]. split; [|split].
  - exact (coverage_needs_features h features len techType a Hlen Hcov Ha).
  - exact (analyze_quality_score features techType a Ha).
  - exact (analyze_tier features techType a Ha).
Qed.

Lemma probeLayer_observation lat lng av errs techType layerConfig :
  quiet (MTNApi.probeLayer h lat lng (av, errs) (techType, layerConfig))
        (fun acc => fst acc = av \/
                    exists o, fst acc = (av ++ [o])%list /\
                              obs_type o = techType /\ observation_ok o).
Proof.
  intros w. unfold MTNApi.probeLayer, try_catch, bind.
  destruct (checkTechnologyCoverage_observation lat lng techType layerConfig w)
    as (r & w1 & E & Hc & Hr).
  rewrite E. destruct r as [o|].
  - eexists _, _. split; [reflexivity|]. split; [exact Hc|]. right.
    exists o. destruct (Hr o eq_refl). auto.
  - eexists _, _. split; [reflexivity|]. split; [exact Hc|]. left. reflexivity.
Qed.

Lemma probe_loop lat lng : forall layers av errs,
  quiet (forEachM (MTNApi.probeLayer h lat lng) layers (av, errs))
        (fun acc => exists found,
           fst acc = (av ++ found)%list /\
           sublist (map obs_type found) (map fst layers) /\
           Forall observation_ok found).
Proof.
  induction layers as [|[techType layerConfig] rest IH]; intros av errs; simpl.
  - apply quiet_ret. exists []. rewrite app_nil_r. repeat split; constructor.
  - eapply quiet_bind; [apply probeLayer_observation|].
    intros [av1 errs1] Hstep. cbn [fst] in Hstep.
    eapply quiet_weaken; [apply IH|].
    intros acc (found & Hacc & Hsub & Hok).
    destruct Hstep as [-> | (o & -> & Ho & Hobs)].
    + exists found. repeat split; auto. apply sublist_cons. exact Hsub.
    + exists (o :: found). rewrite Hacc, <- app_assoc. repeat split.
      * cbn [map]. rewrite Ho. apply sublist_skip. exact Hsub.
      * constructor; assumption.
Qed.

(** X9. When the primary source reports coverage, its entry lists at
    least one observation; the technologies observed follow the order of
    the layer table, each at most once; and every observation is marked
    available, is described by its technology, carries a non-empty array
    of features, an integer score from 0 to 100 and the strength tier of
    that score and feature count.  The entry never carries errors. *)
Theorem getRealMTNCoverage_observations lat lng addr w :
  exists r w',
    MTNApi.getRealMTNCoverage h lat lng addr w = (Ok r, w') /\
    forall m, r = Some m ->
      exists types,
        m = {[ "mtnGeoServer" :=
                 MtnGeoServer true types "MTN GeoServer WMS" (lat, lng) addr None ]} /\
        types <> [] /\
        sublist (map obs_type types) (map fst MTNApi.technologyLayers) /\
        Forall observation_ok types.
Proof.
  assert (Hq : quiet (MTNApi.getRealMTNCoverage h lat lng addr)
    (fun r => forall m, r = Some m ->
      exists types,
        m = {[ "mtnGeoServer" :=
                 MtnGeoServer true types "MTN GeoServer WMS" (lat, lng) addr None ]} /\
        types <> [] /\
        sublist (map obs_type types) (map fst MTNApi.technologyLayers) /\
        Forall observation_ok types)).
  { unfold MTNApi.getRealMTNCoverage.
    apply quiet_try_catch; [|intros e; apply quiet_ret; discriminate].
    apply quiet_framed. eapply quiet_bind.
    - apply quiet_and.
      + apply (quiet_forEachM (MTNApi.probeLayer h lat lng) (fun acc => snd acc = [])).
        * intros [av errs] x Hs. simpl in Hs. subst errs. apply probeLayer_quiet.
        * reflexivity.
      + apply probe_loop.
    - intros [av errs] [Herrs (found & Hav & Hsub & Hok)].
      cbn [fst snd] in *. subst errs av. cbn [app].
      destruct found as [|o rest]; apply quiet_ret; [discriminate|].
      intros m Hm. inversion Hm; subst m. exists (o :: rest).
      split; [reflexivity|]. split; [discriminate|]. split; assumption. }
  destruct (Hq w) as (r & w' & E & _ & Hr). exists r, w'. split; [exact E | exact Hr].
Qed.

End Observations.

(** * The proxy client *)

Lemma is_string_eq v literal : ApiClient.is_string v literal = true <-> v = Some (JStr literal).
Proof.
  unfold ApiClient.is_string. destruct v as [[| | |s| |]|]; split; try discriminate.
  - intros H. apply String.eqb_eq in H. subst. reflexivity.
  - intros H. inversion H. apply String.eqb_refl.
Qed.

(** X10. [parseCoverageResult] reports coverage only for a result of type
    "text" or "binary" with a truthy content, and it does report coverage
    for every binary result with a truthy content.  It throws exactly when
    the type is "text" and the content is truthy without being a string. *)
Theorem parseCoverageResult_cases h result :
  (ApiClient.parseCoverageResult h result = Ok true ->
   exists r, result = Some r /\ truthy (member r "content") = true /\
             (member r "type" = Some (JStr "text") \/
              member r "type" = Some (JStr "binary"))) /\
  (forall r, result = Some r -> member r "type" = Some (JStr "binary") ->
             truthy (member r "content") = true ->
             ApiClient.parseCoverageResult h result = Ok true) /\
  ((exists e, ApiClient.parseCoverageResult h result = Throw e) <->
   exists r, result = Some r /\ member r "type" = Some (JStr "text") /\
             truthy (member r "content") = true /\
             forall s, member r "content" <> Some (JStr s)).
Proof.
  unfold ApiClient.parseCoverageResult.
  destruct result as [r|].
  2:{ cbn. split; [discriminate|]. split; [discriminate|]. split.
      - intros [e He]. discriminate.
      - intros (r & Hr & _). discriminate. }
  assert (Hfalsy : truthy (Some r) = false -> member r "type" = None).
  { destruct r; cbn; try reflexivity; discriminate. }
  destruct (truthy (Some r)) eqn:Hr; cbn [negb].
  2:{ specialize (Hfalsy eq_refl).
      split; [discriminate|]. split.
      - intros r0 Hr0 Hty. inversion Hr0; subst r0. congruence.
      - split.
        + intros [e He]. discriminate.
        + intros (r0 & Hr0 & Hty & _). inversion Hr0; subst r0. congruence. }
  clear Hfalsy.
  assert (Hget : forall p, get_prop (Some r) p = Ok (member r p)).
  { intros p. destruct r; try reflexivity. discriminate. }
  rewrite !Hget. cbn [obind].
  pose proof (is_string_eq (member r "type") "text") as Htext.
  pose proof (is_string_eq (member r "type") "binary") as Hbin.
  destruct (ApiClient.is_string (member r "type") "text");
  destruct (ApiClient.is_string (member r "type") "binary");
  destruct (truthy (member r "content")) eqn:Hc; cbn [andb];
  try (destruct (member r "content") as [[| | |s| |]|] eqn:Hcontent);
  (split; [intros Hres; try discriminate; exists r; intuition congruence|]);
  (split; [intros r0 Hr0 Hty Hc'; inversion Hr0; subst r0; try reflexivity; intuition congruence|]);
  (split; [intros [e He]; try discriminate; exists r; intuition congruence|]);
  intros (r0 & Hr0 & Hty & Hc' & Hns); inversion Hr0; subst r0;
  try (eexists; reflexivity); exfalso; try (apply (Hns s); reflexivity); intuition congruence.
Qed.

Lemma parseCoverageResult_cases_witness :
  ApiClient.parseCoverageResult Example.offline (Some binary_result) = Ok true.
Proof.
  destruct (parseCoverageResult_cases Example.offline (Some binary_result)) as (_ & Hbin & _).
  apply (Hbin binary_result); reflexivity.
Defined.

(** One transport call, and the value returned is the parsed body. *)
Lemma checkSingleTechnology_outcome h lat lng tech w :
  transport_calls (snd (ApiClient.checkSingleTechnology h lat lng tech w))
    = (transport_calls w + 1)%nat /\
  forall j,
    fst (ApiClient.checkSingleTechnology h lat lng tech w) = Ok j <->
    exists resp,
      net h (tick w) (ReqProxyCoverage lat lng tech) = FetchResolves resp /\
      ok resp = true /\ body resp = Ok j.
Proof.
  unfold ApiClient.checkSingleTechnology, try_catch, bind, fetch, response_json, lift,
    throw, transport_calls.
  destruct (net h (tick w) (ReqProxyCoverage lat lng tech)) as [e|resp]; cbn [fst snd trace].
  - split; [rewrite count_fetches_app; reflexivity|].
    intros j. split; [discriminate|]. intros (resp & Hr & _). discriminate.
  - destruct (ok resp) eqn:Hok; cbn [negb].
    + destruct (body resp) as [j0|e] eqn:Hbody; cbn [fst snd trace];
        (split; [rewrite count_fetches_app; reflexivity|]); intros j; split.
      * intros Hj. inversion Hj; subst. exists resp. auto.
      * intros (resp' & Hr & _ & Hb). inversion Hr; subst resp'. congruence.
      * discriminate.
      * intros (resp' & Hr & _ & Hb). inversion Hr; subst resp'. congruence.
    + destruct (get_prop (Some match body resp with Ok j0 => j0 | Throw _ => JObj [] end) "error")
        as [err|e]; cbn [fst snd trace];
        (split; [rewrite count_fetches_app; reflexivity|]); intros j; split;
        try discriminate; intros (resp' & Hr & Hok' & _); inversion Hr; subst resp'; congruence.
Qed.

(** X11. [checkSingleTechnology] makes exactly one transport call, and it
    returns a value exactly when that call resolves to an ok response
    whose body parses; the value is then the parsed body.  In every other
    case it throws. *)
Theorem checkSingleTechnology_returns_body h lat lng tech w :
  transport_calls (snd (ApiClient.checkSingleTechnology h lat lng tech w))
    = (transport_calls w + 1)%nat /\
  forall j,
    fst (ApiClient.checkSingleTechnology h lat lng tech w) = Ok j <->
    exists resp,
      net h (tick w) (ReqProxyCoverage lat lng tech) = FetchResolves resp /\
      ok resp = true /\ body resp = Ok j.
Proof. exact (checkSingleTechnology_outcome h lat lng tech w). Qed.

(** ** The result of [ApiClient.checkCoverage] *)

Lemma obj_set_keys {V} (obj : list (string * V)) key v :
  map fst (ApiClient.obj_set obj key v) = add_key (map fst obj) key.
Proof.
  unfold add_key. induction obj as [|[k x] rest IH]; simpl; [reflexivity|].
  rewrite (String.eqb_sym key k). destruct (String.eqb k key); simpl; [reflexivity|].
  rewrite IH. destruct (existsb (String.eqb key) (map fst rest)); reflexivity.
Qed.

Lemma obj_set_Forall {V} (P : string * V -> Prop) (obj : list (string * V)) key v :
  Forall P obj -> (forall k, String.eqb k key = true -> P (k, v)) -> P (key, v) ->
  Forall P (ApiClient.obj_set obj key v).
Proof.
  intros Hobj Hk Hnew. induction Hobj as [|[k x] rest Hx Hrest IH]; simpl.
  - constructor; [exact Hnew | constructor].
  - destruct (String.eqb k key) eqn:E; constructor; auto.
Qed.

Section ProxyClient.

Variable h : host.

Lemma checkOne_quiet lat lng results tech :
  quiet (ApiClient.checkOne h lat lng results tech)
        (fun results' => exists v, results' = ApiClient.obj_set results tech v).
Proof.
  intros w. unfold ApiClient.checkOne, bind, try_catch.
  destruct (checkSingleTechnology_framed h lat lng tech w) as [Hc _].
  destruct (ApiClient.checkSingleTechnology h lat lng tech w) as [[j|e] w1];
    cbn [fst snd] in *; cbn [ret].
  - eexists _, _. split; [reflexivity|]. split; [exact Hc|]. eexists; reflexivity.
  - destruct (negb (String.eqb (message_or "Unknown error" e) ""));
      eexists _, _; (split; [reflexivity|]); (split; [exact Hc|]); eexists; reflexivity.
Qed.

Lemma checkMultipleTechnologies_keys lat lng : forall techs results,
  quiet (forEachM (ApiClient.checkOne h lat lng) techs results)
        (fun results' => map fst results' = fold_left add_key techs (map fst results)).
Proof.
  induction techs as [|tech rest IH]; intros results; simpl.
  - apply quiet_ret. reflexivity.
  - eapply quiet_bind; [apply checkOne_quiet|].
    intros results1 [v ->]. eapply quiet_weaken; [apply IH|].
    intros results' Hkeys. rewrite Hkeys, obj_set_keys. reflexivity.
Qed.

Lemma processEntry_ok processed entry processed' :
  ApiClient.processEntry h processed entry = Ok processed' ->
  exists hasCoverage,
    processed' = ApiClient.obj_set processed (fst entry) (proxy_entry (fst entry) hasCoverage).
Proof.
  destruct entry as [tech result]. unfold ApiClient.processEntry. cbn [fst].
  destruct result as [r|]; [|intros H; inversion H; exists false; reflexivity].
  destruct (truthy (Some r) && negb (truthy (member r "error")));
    [|intros H; inversion H; exists false; reflexivity].
  destruct (ApiClient.parseCoverageResult h (Some r)) as [b|e]; [|discriminate].
  cbn [obind]. intros H. inversion H. exists b. reflexivity.
Qed.

Lemma forEach_processEntry results : forall processed processed',
  forEach (ApiClient.processEntry h) results processed = Ok processed' ->
  Forall proxy_entry_ok processed ->
  map fst processed' = fold_left add_key (map fst results) (map fst processed) /\
  Forall proxy_entry_ok processed'.
Proof.
  induction results as [|entry rest IH]; intros processed processed' H Hok; simpl in H.
  - inversion H; subst. auto.
  - destruct (ApiClient.processEntry h processed entry) as [p1|e] eqn:E; [|discriminate].
    cbn [obind] in H. destruct (processEntry_ok _ _ _ E) as [b ->].
    destruct (IH _ _ H) as [Hkeys Hall].
    + apply obj_set_Forall; auto.
      * intros k Hk. apply String.eqb_eq in Hk. subst k. exists b. reflexivity.
      * exists b. reflexivity.
    + split; [|exact Hall]. rewrite Hkeys, obj_set_keys. reflexivity.
Qed.

(** The two shapes of the value that the proxy client returns. *)
Lemma ApiClient_checkCoverage_entries lat lng addr w :
  exists p w',
    ApiClient.checkCoverage h lat lng addr w = (Ok p, w') /\
    ApiClient.p_address p = addr /\ ApiClient.p_coordinates p = (lat, lng) /\
    ((ApiClient.p_coverage p = [] /\ ApiClient.p_error p <> None) \/
     (ApiClient.p_error p = None /\
      map fst (ApiClient.p_coverage p) = ApiClient.technologies /\
      Forall proxy_entry_ok (ApiClient.p_coverage p))).
Proof.
  unfold ApiClient.checkCoverage, try_catch, bind.
  destruct (checkMultipleTechnologies_keys lat lng ApiClient.technologies [] w)
    as (results & w1 & E & _ & Hkeys).
  unfold ApiClient.checkMultipleTechnologies. rewrite E. unfold lift.
  destruct (forEach (ApiClient.processEntry h) results []) as [processed|e] eqn:Ep.
  - destruct (forEach_processEntry results [] processed Ep) as [Hk Hall]; [constructor|].
    eexists _, _. split; [reflexivity|]. cbn. repeat split. right.
    repeat split; [|exact Hall]. rewrite Hk, Hkeys. reflexivity.
  - eexists _, _. split; [reflexivity|]. cbn. repeat split. left.
    split; [reflexivity | discriminate].
Qed.

(** X12. [ApiClient.checkCoverage] echoes the address and coordinates and
    returns either an empty coverage with an error message, or no error
    and exactly one entry per technology, in the order 2G, 3G, 4G, 5G,
    UNCAPPED_WIRELESS, FIBRE, LICENSED_WIRELESS, FIXED_LTE, each holding a
    single type record that names that technology and whose signal
    strength is "Good" when it is available and "No Signal" when not. *)
Theorem ApiClient_checkCoverage_shape lat lng addr w :
  exists p w',
    ApiClient.checkCoverage h lat lng addr w = (Ok p, w') /\
    ApiClient.p_address p = addr /\ ApiClient.p_coordinates p = (lat, lng) /\
    ((ApiClient.p_coverage p = [] /\ ApiClient.p_error p <> None) \/
     (ApiClient.p_error p = None /\
      map fst (ApiClient.p_coverage p) = ApiClient.technologies /\
      Forall proxy_entry_ok (ApiClient.p_coverage p))).
Proof. exact (ApiClient_checkCoverage_entries lat lng addr w). Qed.

End ProxyClient.

(** ** The proxy client when every source fails *)

Lemma entries_determined (entries : list (string * list ApiClient.ProxyType)) b :
  Forall (fun entry => snd entry = proxy_entry (fst entry) b) entries ->
  entries = map (fun tech => (tech, proxy_entry tech b)) (map fst entries).
Proof.
  induction 1 as [|[k v] rest Hv _ IH]; simpl; [reflexivity|].
  simpl in Hv. subst v. f_equal. exact IH.
Qed.

Section ProxyFailure.

Variable h : host.
Hypothesis Hfail : every_source_fails h.

Lemma checkSingleTechnology_fails lat lng tech w :
  exists e, fst (ApiClient.checkSingleTechnology h lat lng tech w) = Throw e.
Proof.
  destruct (fst (ApiClient.checkSingleTechnology h lat lng tech w)) as [j|e] eqn:E;
    [|eauto].
  apply (checkSingleTechnology_outcome h lat lng tech w) in E.
  destruct E as (resp & Hnet & Hok & _).
  pose proof (Hfail (tick w) (ReqProxyCoverage lat lng tech)) as Hf.
  rewrite Hnet in Hf. congruence.
Qed.

Lemma checkOne_fails lat lng results tech :
  quiet (ApiClient.checkOne h lat lng results tech)
        (fun results' => exists v, failed_value v /\
                                   results' = ApiClient.obj_set results tech v).
Proof.
  intros w. unfold ApiClient.checkOne, bind, try_catch.
  destruct (checkSingleTechnology_framed h lat lng tech w) as [Hc _].
  destruct (checkSingleTechnology_fails lat lng tech w) as [e He].
  destruct (ApiClient.checkSingleTechnology h lat lng tech w) as [[j|e'] w1];
    cbn [fst snd] in *; [discriminate|]. cbn [ret].
  destruct (String.eqb (message_or "Unknown error" e') "") eqn:Hm; cbn [negb].
  - eexists _, _. split; [reflexivity|]. split; [exact Hc|].
    exists None. split; [left; reflexivity | reflexivity].
  - eexists _, _. split; [reflexivity|]. split; [exact Hc|].
    eexists. split; [|reflexivity]. right. eexists. split; [|reflexivity].
    apply String.eqb_neq. exact Hm.
Qed.

Lemma checkMultipleTechnologies_fails lat lng : forall techs results,
  Forall (fun entry => failed_value (snd entry)) results ->
  quiet (forEachM (ApiClient.checkOne h lat lng) techs results)
        (fun results' => Forall (fun entry => failed_value (snd entry)) results').
Proof.
  induction techs as [|tech rest IH]; intros results Hres; simpl.
  - apply quiet_ret. exact Hres.
  - eapply quiet_bind; [apply checkOne_fails|].
    intros results1 (v & Hv & ->). apply IH.
    apply obj_set_Forall; auto.
Qed.

Lemma processEntry_failed processed tech v :
  failed_value v ->
  ApiClient.processEntry h processed (tech, v)
  = Ok (ApiClient.obj_set processed tech (proxy_entry tech false)).
Proof.
  intros [-> | (msg & Hmsg & ->)]; [reflexivity|].
  unfold ApiClient.processEntry. cbn [truthy member assoc].
  rewrite String.eqb_refl. cbn [truthy].
  apply String.eqb_neq in Hmsg. rewrite Hmsg. reflexivity.
Qed.

Lemma forEach_processEntry_failed results : forall processed,
  Forall (fun entry => failed_value (snd entry)) results ->
  Forall (fun entry => snd entry = proxy_entry (fst entry) false) processed ->
  exists processed',
    forEach (ApiClient.processEntry h) results processed = Ok processed' /\
    Forall (fun entry => snd entry = proxy_entry (fst entry) false) processed'.
Proof.
  induction results as [|[tech v] rest IH]; intros processed Hres Hp; cbn [forEach].
  - eauto.
  - inversion Hres as [|? ? Hv Hrest]; subst. cbn [snd] in Hv.
    rewrite (processEntry_failed processed tech v Hv). cbn [obind].
    apply IH; [exact Hrest|]. apply obj_set_Forall; auto.
    intros k Hk. apply String.eqb_eq in Hk. subst k. reflexivity.
Qed.

(** X13. When every transport call fails, [ApiClient.checkCoverage]
    reports no error: it lists all eight technologies, each as not
    available with "No Signal". *)
Theorem ApiClient_checkCoverage_all_fail lat lng addr w :
  exists p w',
    ApiClient.checkCoverage h lat lng addr w = (Ok p, w') /\
    ApiClient.p_error p = None /\
    ApiClient.p_coverage p
    = map (fun tech => (tech, proxy_entry tech false)) ApiClient.technologies.
Proof.
  destruct (ApiClient_checkCoverage_entries h lat lng addr w)
    as (p & w' & E & _ & _ & Hshape).
  exists p, w'. split; [exact E|].
  revert E. unfold ApiClient.checkCoverage, try_catch, bind.
  destruct (checkMultipleTechnologies_fails lat lng ApiClient.technologies [] ltac:(constructor) w)
    as (results & w1 & E1 & _ & Hres).
  unfold ApiClient.checkMultipleTechnologies. rewrite E1. unfold lift.
  destruct (forEach_processEntry_failed results [] Hres ltac:(constructor))
    as (processed & Ep & Hall).
  rewrite Ep. intros E. inversion E; subst p. cbn in *.
  split; [reflexivity|].
  destruct Hshape as [[_ Hne] | (_ & Hkeys & _)]; [contradiction|].
  rewrite (entries_determined processed false Hall), Hkeys. reflexivity.
Qed.

End ProxyFailure.

Lemma ApiClient_checkCoverage_all_fail_witness :
  exists p w',
    ApiClient.checkCoverage Example.offline Example.jhb_lat Example.jhb_lng "Johannesburg"
      Example.fresh_world = (Ok p, w') /\
    ApiClient.p_error p = None /\
    ApiClient.p_coverage p
    = map (fun tech => (tech, proxy_entry tech false)) ApiClient.technologies.
Proof.
  apply (ApiClient_checkCoverage_all_fail Example.offline offline_fails).
Defined.

(** * The technologies shown by the page *)

Lemma includes_In l t : App.includes l t = true <-> In t l.
Proof.
  unfold App.includes. rewrite existsb_exists. split.
  - intros (x & Hx & E). apply String.eqb_eq in E. subst. exact Hx.
  - intros Hin. exists t. split; [exact Hin | apply String.eqb_refl].
Qed.

Lemma collectType_In l ty t :
  In t (App.collectType l ty) <->
  In t l \/ (ApiClient.pavailable ty = true /\ ApiClient.ptype ty = t).
Proof.
  unfold App.collectType.
  destruct (ApiClient.pavailable ty) eqn:Hav; cbn [andb].
  - destruct (App.includes l (ApiClient.ptype ty)) eqn:Hinc; cbn [negb].
    + apply includes_In in Hinc. split; [auto|]. intros [H | [_ <-]]; assumption.
    + rewrite in_app_iff. cbn [In]. split.
      * intros [H | [H | []]]; auto.
      * intros [H | [_ H]]; auto.
  - split; [auto|]. intros [H | [H _]]; [assumption | discriminate].
Qed.

Lemma collectType_NoDup l ty : List.NoDup l -> List.NoDup (App.collectType l ty).
Proof.
  intros Hnd. unfold App.collectType.
  destruct (ApiClient.pavailable ty && negb (App.includes l (ApiClient.ptype ty))) eqn:E;
    [|exact Hnd].
  apply andb_prop in E. destruct E as [_ E]. apply negb_true_iff in E.
  apply List.NoDup_app; [exact Hnd | repeat constructor; auto |].
  intros x Hx [<- | []]. apply includes_In in Hx. congruence.
Qed.

Lemma collect_types types : forall l t,
  In t (fold_left App.collectType types l) <->
  In t l \/ exists ty, In ty types /\ ApiClient.pavailable ty = true /\ ApiClient.ptype ty = t.
Proof.
  induction types as [|ty rest IH]; intros l t; simpl.
  - split; [auto|]. intros [H | (ty & [] & _)]. exact H.
  - rewrite IH, collectType_In. split.
    + intros [[H | H] | (ty' & Hin & H)]; eauto 6.
    + intros [H | (ty' & [<- | Hin] & H)]; eauto 6.
Qed.

Lemma collect_types_NoDup types : forall l,
  List.NoDup l -> List.NoDup (fold_left App.collectType types l).
Proof.
  induction types as [|ty rest IH]; intros l Hnd; simpl; [exact Hnd|].
  apply IH, collectType_NoDup, Hnd.
Qed.

Lemma collect_sources sources : forall l t,
  In t (fold_left (fun technologies (source : string * list ApiClient.ProxyType) =>
                     fold_left App.collectType (snd source) technologies) sources l) <->
  In t l \/ exists source ty, In source sources /\ In ty (snd source) /\
                              ApiClient.pavailable ty = true /\ ApiClient.ptype ty = t.
Proof.
  induction sources as [|source rest IH]; intros l t; simpl.
  - split; [auto|]. intros [H | (s & ty & [] & _)]. exact H.
  - rewrite IH, collect_types. split.
    + intros [[H | (ty & Hin & H)] | (s & ty & Hs & H)]; eauto 8.
    + intros [H | (s & ty & [<- | Hs] & H)]; eauto 8.
Qed.

Lemma collect_sources_NoDup sources : forall l,
  List.NoDup l ->
  List.NoDup (fold_left (fun technologies (source : string * list ApiClient.ProxyType) =>
                           fold_left App.collectType (snd source) technologies) sources l).
Proof.
  induction sources as [|source rest IH]; intros l Hnd; simpl; [exact Hnd|].
  apply IH, collect_types_NoDup, Hnd.
Qed.

Lemma toggled_obj_set state k t :
  App.toggled (ApiClient.obj_set state k true) t
  = if String.eqb k t then Some true else App.toggled state t.
Proof.
  induction state as [|[k' v] rest IH]; simpl.
  - reflexivity.
  - destruct (String.eqb k' k) eqn:E; simpl.
    + apply String.eqb_eq in E. subst k'. destruct (String.eqb k t); reflexivity.
    + rewrite IH. destruct (String.eqb k' t) eqn:E'; [|reflexivity].
      apply String.eqb_eq in E'. subst k'. rewrite String.eqb_sym, E. reflexivity.
Qed.

Lemma toggled_fold techs : forall state t,
  App.toggled (fold_left (fun st tech => ApiClient.obj_set st tech true) techs state) t
  = if App.includes techs t then Some true else App.toggled state t.
Proof.
  unfold App.includes.
  induction techs as [|tech rest IH]; intros state t; simpl; [reflexivity|].
  rewrite IH, toggled_obj_set. rewrite (String.eqb_sym t tech).
  destruct (existsb (String.eqb t) rest), (String.eqb tech t); reflexivity.
Qed.

Lemma allOff_off t : App.toggled App.allOff t <> Some true.
Proof.
  unfold App.allOff. simpl.
  repeat match goal with |- context [if ?b then _ else _] => destruct b end; discriminate.
Qed.

(** What the page extracts, and which toggles it switches on. *)
Lemma availableTechnologies_spec result :
  List.NoDup (App.availableTechnologies result) /\
  forall t,
    (In t (App.availableTechnologies result) <->
     exists source ty,
       In source (ApiClient.p_coverage result) /\ In ty (snd source) /\
       ApiClient.pavailable ty = true /\ ApiClient.ptype ty = t) /\
    (App.toggled (App.newToggleState (App.availableTechnologies result)) t = Some true <->
     In t (App.availableTechnologies result)).
Proof.
  unfold App.availableTechnologies. split.
  - apply collect_sources_NoDup. constructor.
  - intros t. split.
    + rewrite collect_sources. split; [intros [[] | H]; exact H | auto].
    + unfold App.newToggleState. rewrite toggled_fold.
      destruct (App.includes _ t) eqn:Hinc.
      * apply includes_In in Hinc. split; auto.
      * split; [intros H; exfalso; exact (allOff_off t H)|].
        intros Hin. apply includes_In in Hin. congruence.
Qed.

(** X14. The technologies that the page extracts from a result are
    exactly the types that some source marks available, each listed once;
    and the toggle of a technology is switched on exactly when the
    technology was extracted. *)
Theorem App_available_technologies result :
  List.NoDup (App.availableTechnologies result) /\
  forall t,
    (In t (App.availableTechnologies result) <->
     exists source ty,
       In source (ApiClient.p_coverage result) /\ In ty (snd source) /\
       ApiClient.pavailable ty = true /\ ApiClient.ptype ty = t) /\
    (App.toggled (App.newToggleState (App.availableTechnologies result)) t = Some true <->
     In t (App.availableTechnologies result)).
Proof. exact (availableTechnologies_spec result). Qed.

(** X15. End to end: after [ApiClient.checkCoverage], the page switches
    on the toggle of a technology exactly when the entry of that
    technology in the result is marked available. *)
Theorem App_toggles_follow_proxy h lat lng addr w :
  exists p w',
    ApiClient.checkCoverage h lat lng addr w = (Ok p, w') /\
    forall t,
      App.toggled (App.newToggleState (App.availableTechnologies p)) t = Some true <->
      In (t, proxy_entry t true) (ApiClient.p_coverage p).
Proof.
  destruct (ApiClient_checkCoverage_entries h lat lng addr w) as (p & w' & E & _ & _ & Hshape).
  exists p, w'. split; [exact E|]. intros t.
  destruct (availableTechnologies_spec p) as [_ Hspec].
  destruct (Hspec t) as [Hin Htog]. rewrite Htog, Hin. clear Hin Htog Hspec.
  assert (Hok : Forall proxy_entry_ok (ApiClient.p_coverage p)).
  { destruct Hshape as [[-> _] | (_ & _ & H)]; [constructor | exact H]. }
  rewrite List.Forall_forall in Hok. split.
  - intros ([k l] & ty & Hs & Hty & Hav & Hname).
    destruct (Hok _ Hs) as [b Hb]. cbn [fst snd] in *. subst l.
    destruct Hty as [<- | []]. cbn in Hav, Hname. subst b k. exact Hs.
  - intros Hs. eexists _, _. split; [exact Hs|]. cbn. split; [left; reflexivity|]. auto.
Qed.

(** * The bounding box of the towers *)

Lemma num_ge_le a b : num_ge a b = num_le b a.
Proof.
  destruct a as [p| | |], b as [q| | |]; try reflexivity.
  unfold num_ge, num_le. cbn [num_compare].
  rewrite <- (Qcompare_antisym q p). destruct (q ?= p)%Q; reflexivity.
Qed.

Lemma num_le_refl a : a <> NaN -> num_le a a = true.
Proof.
  destruct a as [p| | |]; try reflexivity; [|contradiction].
  intros _. apply num_le_Fin. lra.
Qed.

Lemma Math_max_upper a b :
  a <> NaN -> b <> NaN ->
  num_le a (Math_max a b) = true /\ num_le b (Math_max a b) = true /\ Math_max a b <> NaN.
Proof.
  intros Ha Hb. unfold Math_max.
  destruct a as [p| | |], b as [q| | |]; try contradiction; cbn [num_compare];
    try (cbv iota; repeat split;
         first [reflexivity | discriminate | apply num_le_refl; discriminate]).
  destruct (Qcompare_spec p q) as [E|L|G]; cbv iota; repeat split; try discriminate;
    rewrite num_le_Fin; lra.
Qed.

Lemma Math_min_lower a b :
  a <> NaN -> b <> NaN ->
  num_le (Math_min a b) a = true /\ num_le (Math_min a b) b = true /\ Math_min a b <> NaN.
Proof.
  intros Ha Hb. unfold Math_min.
  destruct a as [p| | |], b as [q| | |]; try contradiction; cbn [num_compare];
    try (cbv iota; repeat split;
         first [reflexivity | discriminate | apply num_le_refl; discriminate]).
  destruct (Qcompare_spec p q) as [E|L|G]; cbv iota; repeat split; try discriminate;
    rewrite num_le_Fin; lra.
Qed.

Lemma widen_keeps b tower earlier :
  box_defined b -> located tower -> in_box b earlier -> in_box (KMLParser.widen b tower) earlier.
Proof.
  intros (Hn & Hs & He & Hw) (Hlat & Hlng) (H1 & H2 & H3 & H4).
  unfold in_box, KMLParser.widen. cbn.
  destruct (Math_max_upper _ _ Hn Hlat) as (Un & _ & _).
  destruct (Math_min_lower _ _ Hs Hlat) as (Ls & _ & _).
  destruct (Math_max_upper _ _ He Hlng) as (Ue & _ & _).
  destruct (Math_min_lower _ _ Hw Hlng) as (Lw & _ & _).
  rewrite num_ge_le in H1, H3. rewrite !num_ge_le.
  repeat split; eapply num_le_trans; eassumption.
Qed.

Lemma widen_adds b tower :
  box_defined b -> located tower ->
  in_box (KMLParser.widen b tower) tower /\ box_defined (KMLParser.widen b tower).
Proof.
  intros (Hn & Hs & He & Hw) (Hlat & Hlng).
  unfold in_box, box_defined, KMLParser.widen. cbn.
  destruct (Math_max_upper _ _ Hn Hlat) as (_ & Un & Dn).
  destruct (Math_min_lower _ _ Hs Hlat) as (_ & Ls & Ds).
  destruct (Math_max_upper _ _ He Hlng) as (_ & Ue & De).
  destruct (Math_min_lower _ _ Hw Hlng) as (_ & Lw & Dw).
  rewrite !num_ge_le. auto 10.
Qed.

Lemma fold_widen towers : forall b,
  box_defined b -> Forall located towers ->
  box_defined (fold_left KMLParser.widen towers b) /\
  (forall earlier, in_box b earlier -> in_box (fold_left KMLParser.widen towers b) earlier) /\
  Forall (in_box (fold_left KMLParser.widen towers b)) towers.
Proof.
  induction towers as [|tower rest IH]; intros b Hb Hall; simpl.
  - split; [exact Hb|]. split; [auto | constructor].
  - inversion Hall as [|? ? Ht Hrest]; subst.
    destruct (widen_adds b tower Hb Ht) as [Hin Hb'].
    destruct (IH _ Hb' Hrest) as (Hd & Hkeep & Hins).
    split; [exact Hd|]. split.
    + intros earlier He. apply Hkeep. apply widen_keeps; assumption.
    + constructor; [apply Hkeep; exact Hin | exact Hins].
Qed.

Lemma calculateBounds_contains towers :
  Forall located towers -> Forall (in_box (KMLParser.calculateBounds towers)) towers.
Proof.
  intros Hall. destruct towers as [|tower rest]; [constructor|].
  unfold KMLParser.calculateBounds.
  apply fold_widen; [|exact Hall]. repeat split; discriminate.
Qed.

(** X16. The box that [calculateBounds] computes contains every tower
    whose coordinates are numbers; so for the data that [parseKML]
    assembles, [isWithinCoverageBounds] accepts the position of each of
    its towers. *)
Theorem towers_within_coverage_bounds found overlay tower :
  Forall located found -> In tower found ->
  in_box (KMLParser.calculateBounds found) tower /\
  TaranaCoverageService.isWithinCoverageBounds
    (Some (KMLParser.assemble found overlay))
    (KMLParser.lat tower) (KMLParser.lng tower) = true.
Proof.
  intros Hall Hin.
  pose proof (calculateBounds_contains found Hall) as Hbox.
  rewrite List.Forall_forall in Hbox. specialize (Hbox tower Hin).
  split; [exact Hbox|].
  destruct Hbox as (H1 & H2 & H3 & H4).
  unfold TaranaCoverageService.isWithinCoverageBounds, KMLParser.assemble. cbn.
  rewrite H1, H2, H3, H4. reflexivity.
Qed.

Lemma towers_within_coverage_bounds_witness :
  in_box (KMLParser.calculateBounds [sandton; soweto]) soweto /\
  TaranaCoverageService.isWithinCoverageBounds
    (Some (KMLParser.assemble [sandton; soweto]
             {| KMLParser.imageUrl := "/coverage/tarana/overlay.png";
                KMLParser.overlayBounds := KMLParser.calculateBounds [] |}))
    (KMLParser.lat soweto) (KMLParser.lng soweto) = true.
Proof.
  apply (towers_within_coverage_bounds [sandton; soweto]).
  - repeat constructor; discriminate.
  - right. left. reflexivity.
Defined.

(** * The signal score of the fixed wireless service *)







(** * The requests of the proxy client *)

Lemma checkSingleTechnology_trace h lat lng tech w :
  trace (snd (ApiClient.checkSingleTechnology h lat lng tech w))
  = (trace w ++ [EvFetch (ReqProxyCoverage lat lng tech)])%list.
Proof.
  unfold ApiClient.checkSingleTechnology, try_catch, bind, fetch, response_json, lift, throw.
  destruct (net h (tick w) (ReqProxyCoverage lat lng tech)) as [e|resp]; cbn [fst snd trace].
  - reflexivity.
  - destruct (ok resp); cbn [negb].
    + destruct (body resp); reflexivity.
    + destruct (get_prop (Some match body resp with Ok j0 => j0 | Throw _ => JObj [] end) "error");
        reflexivity.
Qed.

Lemma checkOne_trace h lat lng results tech w :
  exists results',
    fst (ApiClient.checkOne h lat lng results tech w) = Ok results' /\
    trace (snd (ApiClient.checkOne h lat lng results tech w))
    = (trace w ++ [EvFetch (ReqProxyCoverage lat lng tech)])%list.
Proof.
  unfold ApiClient.checkOne, bind, try_catch.
  pose proof (checkSingleTechnology_trace h lat lng tech w) as Ht.
  destruct (ApiClient.checkSingleTechnology h lat lng tech w) as [[j|e] w1];
    cbn [fst snd] in *; cbn [ret].
  - eexists. split; [reflexivity | exact Ht].
  - destruct (negb (String.eqb (message_or "Unknown error" e) ""));
      (eexists; split; [reflexivity | exact Ht]).
Qed.

Lemma checkMultipleTechnologies_trace h lat lng : forall techs results w,
  exists results',
    fst (forEachM (ApiClient.checkOne h lat lng) techs results w) = Ok results' /\
    trace (snd (forEachM (ApiClient.checkOne h lat lng) techs results w))
    = (trace w ++ map (fun tech => EvFetch (ReqProxyCoverage lat lng tech)) techs)%list.
Proof.
  induction techs as [|tech rest IH]; intros results w; cbn [forEachM map].
  - exists results. split; [reflexivity|]. cbn. rewrite app_nil_r. reflexivity.
  - unfold bind. destruct (checkOne_trace h lat lng results tech w) as (r1 & E1 & T1).
    destruct (ApiClient.checkOne h lat lng results tech w) as [[r|e] w1];
      cbn [fst snd] in *; [|discriminate].
    destruct (IH r w1) as (r2 & E2 & T2). exists r2. split; [exact E2|].
    rewrite T2, T1, <- app_assoc. reflexivity.
Qed.

(** X19. Whatever the network answers, [ApiClient.checkCoverage] sends
    exactly eight requests, one to the coverage proxy for each technology
    in the order of its list and with the coordinates it was given: a
    failed request is neither repeated nor does it stop the later ones. *)
Theorem ApiClient_checkCoverage_requests h lat lng addr w :
  trace (snd (ApiClient.checkCoverage h lat lng addr w))
  = (trace w ++ map (fun tech => EvFetch (ReqProxyCoverage lat lng tech))
                    ["2G"; "3G"; "4G"; "5G"; "UNCAPPED_WIRELESS"; "FIBRE";
                     "LICENSED_WIRELESS"; "FIXED_LTE"])%list /\
  transport_calls (snd (ApiClient.checkCoverage h lat lng addr w))
  = (transport_calls w + 8)%nat.
Proof.
  assert (Ht : trace (snd (ApiClient.checkCoverage h lat lng addr w))
    = (trace w ++ map (fun tech => EvFetch (ReqProxyCoverage lat lng tech))
                      ApiClient.technologies)%list).
  { unfold ApiClient.checkCoverage, try_catch, bind, ApiClient.checkMultipleTechnologies.
    destruct (checkMultipleTechnologies_trace h lat lng ApiClient.technologies [] w)
      as (results & E & T).
    destruct (forEachM (ApiClient.checkOne h lat lng) ApiClient.technologies [] w)
      as [[r|e] w1]; cbn [fst snd] in *; [|discriminate].
    inversion E; subst r. unfold lift.
    destruct (forEach (ApiClient.processEntry h) results []); cbn; exact T. }
  split; [exact Ht|].
  unfold transport_calls. rewrite Ht, count_fetches_app. reflexivity.
Qed.

(** * The edges of the bounding box *)

Lemma Math_max_choice a b : Math_max a b = a \/ Math_max a b = b.
Proof.
  unfold Math_max. destruct (num_compare a b) as [[]|] eqn:E; auto.
  destruct a, b; try discriminate; auto.
Qed.

Lemma Math_min_choice a b : Math_min a b = a \/ Math_min a b = b.
Proof.
  unfold Math_min. destruct (num_compare a b) as [[]|] eqn:E; auto.
  destruct a, b; try discriminate; auto.
Qed.

Lemma fold_widen_edges towers : forall b,
  edges_from b towers (fold_left KMLParser.widen towers b).
Proof.
  induction towers as [|tower rest IH]; intros b; cbn [fold_left].
  - repeat split; left; reflexivity.
  - destruct (IH (KMLParser.widen b tower)) as (Hn & Hs & He & Hw).
    set (b' := fold_left KMLParser.widen rest (KMLParser.widen b tower)) in *.
    change (KMLParser.north (KMLParser.widen b tower))
      with (Math_max (KMLParser.north b) (KMLParser.lat tower)) in Hn.
    change (KMLParser.south (KMLParser.widen b tower))
      with (Math_min (KMLParser.south b) (KMLParser.lat tower)) in Hs.
    change (KMLParser.east (KMLParser.widen b tower))
      with (Math_max (KMLParser.east b) (KMLParser.lng tower)) in He.
    change (KMLParser.west (KMLParser.widen b tower))
      with (Math_min (KMLParser.west b) (KMLParser.lng tower)) in Hw.
    split; [|split; [|split]].
    + destruct Hn as [Hn | (t & Ht & Hn)].
      * destruct (Math_max_choice (KMLParser.north b) (KMLParser.lat tower)) as [E|E];
          rewrite E in Hn; [left; exact Hn | right; exists tower; split; [left; reflexivity | exact Hn]].
      * right. exists t. split; [right; exact Ht | exact Hn].
    + destruct Hs as [Hs | (t & Ht & Hs)].
      * destruct (Math_min_choice (KMLParser.south b) (KMLParser.lat tower)) as [E|E];
          rewrite E in Hs; [left; exact Hs | right; exists tower; split; [left; reflexivity | exact Hs]].
      * right. exists t. split; [right; exact Ht | exact Hs].
    + destruct He as [He | (t & Ht & He)].
      * destruct (Math_max_choice (KMLParser.east b) (KMLParser.lng tower)) as [E|E];
          rewrite E in He; [left; exact He | right; exists tower; split; [left; reflexivity | exact He]].
      * right. exists t. split; [right; exact Ht | exact He].
    + destruct Hw as [Hw | (t & Ht & Hw)].
      * destruct (Math_min_choice (KMLParser.west b) (KMLParser.lng tower)) as [E|E];
          rewrite E in Hw; [left; exact Hw | right; exists tower; split; [left; reflexivity | exact Hw]].
      * right. exists t. split; [right; exact Ht | exact Hw].
Qed.

Lemma on_globe_located tower : on_globe tower -> located tower.
Proof.
  intros (H1 & _ & H3 & _). split; intros E; [rewrite E in H1 | rewrite E in H3]; discriminate.
Qed.

(** X20. For a non-empty list of towers whose coordinates are latitudes
    and longitudes, every edge of the box of [calculateBounds] is reached
    by a tower: some tower lies as far north as the north edge, some as
    far south as the south edge, and likewise east and west.  The box is
    thus the smallest one that holds the towers. *)
Theorem calculateBounds_tight towers :
  towers <> [] -> Forall on_globe towers ->
  (exists t, In t towers /\
     num_ge (KMLParser.lat t) (KMLParser.north (KMLParser.calculateBounds towers)) = true) /\
  (exists t, In t towers /\
     num_le (KMLParser.lat t) (KMLParser.south (KMLParser.calculateBounds towers)) = true) /\
  (exists t, In t towers /\
     num_ge (KMLParser.lng t) (KMLParser.east (KMLParser.calculateBounds towers)) = true) /\
  (exists t, In t towers /\
     num_le (KMLParser.lng t) (KMLParser.west (KMLParser.calculateBounds towers)) = true).
Proof.
  intros Hne Hall. destruct towers as [|t0 rest]; [contradiction|]. clear Hne.
  assert (Hloc : forall t, In t (t0 :: rest) -> located t).
  { intros t Ht. apply on_globe_located. rewrite List.Forall_forall in Hall. auto. }
  assert (H0 : on_globe t0) by (inversion Hall; assumption).
  destruct H0 as (G1 & G2 & G3 & G4).
  unfold KMLParser.calculateBounds.
  destruct (fold_widen_edges (t0 :: rest)
              {| KMLParser.north := int (-90); KMLParser.south := int 90;
                 KMLParser.east := int (-180); KMLParser.west := int 180 |})
    as (Hn & Hs & He & Hw).
  cbn [KMLParser.north KMLParser.south KMLParser.east KMLParser.west] in Hn, Hs, He, Hw.
  split; [|split; [|split]].
  - destruct Hn as [-> | (t & Ht & ->)].
    + exists t0. split; [left; reflexivity | exact G1].
    + exists t. split; [exact Ht|]. rewrite num_ge_le. apply num_le_refl, (Hloc t Ht).
  - destruct Hs as [-> | (t & Ht & ->)].
    + exists t0. split; [left; reflexivity | exact G2].
    + exists t. split; [exact Ht|]. apply num_le_refl, (Hloc t Ht).
  - destruct He as [-> | (t & Ht & ->)].
    + exists t0. split; [left; reflexivity | exact G3].
    + exists t. split; [exact Ht|]. rewrite num_ge_le. apply num_le_refl, (Hloc t Ht).
  - destruct Hw as [-> | (t & Ht & ->)].
    + exists t0. split; [left; reflexivity | exact G4].
    + exists t. split; [exact Ht|]. apply num_le_refl, (Hloc t Ht).
Qed.

Lemma calculateBounds_tight_witness :
  exists t, In t [sandton; soweto] /\
    num_ge (KMLParser.lat t)
           (KMLParser.north (KMLParser.calculateBounds [sandton; soweto])) = true.
Proof.
  apply (calculateBounds_tight [sandton; soweto]).
  - discriminate.
  - repeat constructor.
Defined.
